(** * MXQL query validator: a shallow embedding of [mxql/mxql_validator.py]

    The validator is a line-oriented static analyser.  [validate] strips the
    query text, splits it into lines, classifies every line against the
    [COMMANDS] pattern table and then runs syntax, semantic and best-practice
    checks, each of which appends [ValidationIssue]s to [self.issues].

    Text is modelled as [string], i.e. as sequences of 8-bit characters read
    as the code points U+0000..U+00FF; on that range the character classes
    below ([isspace], [isword], [isdigit], case folding) are the ones Python
    uses for [str.strip] and for [\s], [\w], [\d] and [re.IGNORECASE].

    After the validator come [generate_test_query] and
    [_dict_to_json_inline] of [test_query_generator.py], over an arbitrary
    [json.dumps], and [_extract_product_type] of [mxql/category_finder.py]. *)

From Stdlib Require Import String Ascii List Bool Arith NArith Lia DecimalString.
From Stdlib Require Import Sorted Permutation.
Import ListNotations.
Open Scope list_scope.
Open Scope string_scope.

Set Implicit Arguments.

(** ** Characters *)

Definition nl : ascii := "010"%char.
Definition dq : ascii := "034"%char.
Definition sq : ascii := "039"%char.
Definition backslash : ascii := "092"%char.

Definition between (lo hi : nat) (c : ascii) : bool :=
  let n := nat_of_ascii c in Nat.leb lo n && Nat.leb n hi.

(** [str.isspace], which is also the class [\s]. *)
Definition isspace (c : ascii) : bool :=
  between 9 13 c || between 28 32 c
  || Nat.eqb (nat_of_ascii c) 133 || Nat.eqb (nat_of_ascii c) 160.

(** The class [\d]. *)
Definition isdigit (c : ascii) : bool := between 48 57 c.

(** The class [\w]: alphanumeric characters and the underscore. *)
Definition isword (c : ascii) : bool :=
  between 48 57 c || between 65 90 c || between 97 122 c
  || Nat.eqb (nat_of_ascii c) 95
  || Nat.eqb (nat_of_ascii c) 170 || between 178 179 c || Nat.eqb (nat_of_ascii c) 181
  || between 185 186 c || between 188 190 c
  || between 192 214 c || between 216 246 c || between 248 255 c.

(** Simple case folding, as used by [re.IGNORECASE]. *)
Definition lower (c : ascii) : ascii :=
  if between 65 90 c || (between 192 222 c && negb (Nat.eqb (nat_of_ascii c) 215))
  then ascii_of_nat (nat_of_ascii c + 32)
  else c.

(** ** Strings *)

Definition str1 (c : ascii) : string := String c EmptyString.

Fixpoint lstrip (s : string) : string :=
  match s with
  | String c s' => if isspace c then lstrip s' else s
  | EmptyString => EmptyString
  end.

Fixpoint rstrip (s : string) : string :=
  match s with
  | String c s' =>
      match rstrip s' with
      | EmptyString => if isspace c then EmptyString else str1 c
      | r => String c r
      end
  | EmptyString => EmptyString
  end.

(** [s.strip()] *)
Definition strip (s : string) : string := rstrip (lstrip s).

(** [s.split(sep)] for a one-character separator. *)
Fixpoint split (sep : ascii) (s : string) : list string :=
  match s with
  | EmptyString => [EmptyString]
  | String c s' =>
      if Ascii.eqb c sep then EmptyString :: split sep s'
      else match split sep s' with
           | cur :: rest => String c cur :: rest
           | [] => [str1 c]
           end
  end.

(** [s.startswith(p)] *)
Definition startswith (s p : string) : bool := String.prefix p s.

(** [sub in s] *)
Fixpoint contains (sub s : string) : bool :=
  String.prefix sub s
  || match s with
     | String _ s' => contains sub s'
     | EmptyString => false
     end.

(** [c in s] for one character. *)
Fixpoint has_char (c : ascii) (s : string) : bool :=
  match s with
  | String x s' => Ascii.eqb x c || has_char c s'
  | EmptyString => false
  end.

(** [str(n)] for a non-negative integer. *)
Definition str_of_int (n : nat) : string :=
  NilEmpty.string_of_uint (Nat.to_uint n).

(** [sep.join(l)] *)
Definition join (sep : string) (l : list string) : string := String.concat sep l.

(** [enumerate(l, start)] *)
Definition enumerate (A : Type) (l : list A) (start : nat) : list (nat * A) :=
  combine (seq start (List.length l)) l.

(** ** Regular expressions

    The fragment of [re] syntax that the validator's patterns use:
    literals, [\s] [\d] [\w] [.], the quantifiers [*] and [+] on one
    character class, one capturing group [(k+)], and the assertions
    [^], [$] and [\b]. *)

Module Re.

Inductive cclass : Type :=
| Lit (c : ascii)
| Space
| Digit
| Word
| Dot.

Inductive node : Type :=
| One (k : cclass)
| Many (k : cclass)
| Many1 (k : cclass)
| Group1 (k : cclass)
| Bol
| Eol
| Boundary.

Definition pattern := list node.

Inductive token : Type :=
| TAtom (k : cclass)
| TStar
| TPlus
| TOpen
| TClose
| TBol
| TEol
| TBoundary.

Definition escaped (c : ascii) : token :=
  if Ascii.eqb c "s" then TAtom Space
  else if Ascii.eqb c "d" then TAtom Digit
  else if Ascii.eqb c "w" then TAtom Word
  else if Ascii.eqb c "b" then TBoundary
  else TAtom (Lit c).

Definition plain (c : ascii) : token :=
  if Ascii.eqb c "^" then TBol
  else if Ascii.eqb c "$" then TEol
  else if Ascii.eqb c "." then TAtom Dot
  else if Ascii.eqb c "*" then TStar
  else if Ascii.eqb c "+" then TPlus
  else if Ascii.eqb c "(" then TOpen
  else if Ascii.eqb c ")" then TClose
  else TAtom (Lit c).

Fixpoint tokens (s : string) : list token :=
  match s with
  | EmptyString => []
  | String c EmptyString => [plain c]
  | String c (String d r as s') =>
      if Ascii.eqb c backslash then escaped d :: tokens r
      else plain c :: tokens s'
  end.

Fixpoint assemble (ts : list token) : pattern :=
  match ts with
  | [] => []
  | TOpen :: TAtom k :: TPlus :: TClose :: r => Group1 k :: assemble r
  | TAtom k :: TStar :: r => Many k :: assemble r
  | TAtom k :: TPlus :: r => Many1 k :: assemble r
  | TAtom k :: r => One k :: assemble r
  | TBol :: r => Bol :: assemble r
  | TEol :: r => Eol :: assemble r
  | TBoundary :: r => Boundary :: assemble r
  | _ :: r => assemble r
  end.

(** The pattern denoted by a raw pattern string of the fragment. *)
Definition compile (s : string) : pattern := assemble (tokens s).

(** Does character [c] belong to class [k]?  [ic] is [re.IGNORECASE]. *)
Definition accepts (ic : bool) (k : cclass) (c : ascii) : bool :=
  match k with
  | Lit x => if ic then Ascii.eqb (lower c) (lower x) else Ascii.eqb c x
  | Space => isspace c
  | Digit => isdigit c
  | Word => isword c
  | Dot => negb (Ascii.eqb c nl)
  end.

Definition opt_word (c : option ascii) : bool :=
  match c with Some x => isword x | None => false end.

Definition head (s : string) : option ascii :=
  match s with String c _ => Some c | EmptyString => None end.

(** [$] holds at the end of the text and before a final newline. *)
Definition at_end (s : string) : bool :=
  match s with
  | EmptyString => true
  | String c EmptyString => Ascii.eqb c nl
  | _ => false
  end.

(** State of a successful match: the captured groups and the unread text. *)
Definition result := (list string * string)%type.

(** Greedy repetition of class [k] with backtracking: take as many
    characters as possible, and give back one at a time while the
    continuation [cont] fails. *)
Fixpoint greedy (ic : bool) (k : cclass)
    (cont : string -> option ascii -> string -> option result)
    (taken : string) (prev : option ascii) (s : string) : option result :=
  match s with
  | String c s' =>
      if accepts ic k c then
        match greedy ic k cont (taken ++ str1 c) (Some c) s' with
        | Some r => Some r
        | None => cont taken prev s
        end
      else cont taken prev s
  | EmptyString => cont taken prev s
  end.

(** Match pattern [p] at the current position; [prev] is the character
    just before it ([None] at the start of the text). *)
Fixpoint match_here (ic : bool) (p : pattern) (caps : list string)
    (prev : option ascii) (s : string) : option result :=
  match p with
  | [] => Some (caps, s)
  | One k :: p' =>
      match s with
      | String c s' =>
          if accepts ic k c then match_here ic p' caps (Some c) s' else None
      | EmptyString => None
      end
  | Many k :: p' =>
      greedy ic k (fun _ pv r => match_here ic p' caps pv r) "" prev s
  | Many1 k :: p' =>
      greedy ic k
        (fun taken pv r =>
           if String.eqb taken "" then None else match_here ic p' caps pv r)
        "" prev s
  | Group1 k :: p' =>
      greedy ic k
        (fun taken pv r =>
           if String.eqb taken "" then None
           else match_here ic p' (caps ++ [taken])%list pv r)
        "" prev s
  | Bol :: p' =>
      match prev with
      | None => match_here ic p' caps prev s
      | Some _ => None
      end
  | Eol :: p' => if at_end s then match_here ic p' caps prev s else None
  | Boundary :: p' =>
      if xorb (opt_word prev) (opt_word (head s))
      then match_here ic p' caps prev s
      else None
  end.

(** The text of [s] that precedes its suffix [rest]. *)
Definition consumed (s rest : string) : string :=
  String.substring 0 (String.length s - String.length rest) s.

(** [re.match(p, s, flags)]: the whole match (group 0) and the groups. *)
Definition re_match (ic : bool) (p : string) (s : string)
  : option (string * list string) :=
  match match_here ic (compile p) [] None s with
  | Some (caps, rest) => Some (consumed s rest, caps)
  | None => None
  end.

Fixpoint search_from (ic : bool) (p : pattern) (prev : option ascii)
    (s : string) : option (string * list string) :=
  match match_here ic p [] prev s with
  | Some (caps, rest) => Some (consumed s rest, caps)
  | None =>
      match s with
      | String c s' => search_from ic p (Some c) s'
      | EmptyString => None
      end
  end.

(** [re.search(p, s)] *)
Definition re_search (ic : bool) (p : string) (s : string)
  : option (string * list string) :=
  search_from ic (compile p) None s.

(** Scan for successive non-overlapping matches; [skip] characters are
    still covered by the previous match. *)
Fixpoint findall_from (ic : bool) (p : pattern) (skip : nat)
    (prev : option ascii) (s : string) : list string :=
  match s with
  | EmptyString => []
  | String c s' =>
      match skip with
      | S n => findall_from ic p n (Some c) s'
      | O =>
          match match_here ic p [] prev s with
          | Some (caps, rest) =>
              join "" caps
                :: findall_from ic p
                     (String.length s - String.length rest - 1) (Some c) s'
          | None => findall_from ic p 0 (Some c) s'
          end
      end
  end.

(** [re.findall(p, s)] for a pattern with one group, none of whose matches
    is empty: the list of the texts captured by the group. *)
Definition re_findall (ic : bool) (p : string) (s : string) : list string :=
  findall_from ic (compile p) 0 None s.

Definition is_some (A : Type) (o : option A) : bool :=
  match o with Some _ => true | None => false end.

End Re.

Definition IGNORECASE : bool := true.

(** ** Data model *)

Inductive Severity : Type := CRITICAL | WARNING | INFO.

Definition Severity_eqb (a b : Severity) : bool :=
  match a, b with
  | CRITICAL, CRITICAL | WARNING, WARNING | INFO, INFO => true
  | _, _ => false
  end.

Record ValidationIssue : Type := {
  severity : Severity;
  line : nat;
  message : string;
  suggestion : option string
}.

(** An entry of [self.commands]: [(line_num, command_name, full_line)]. *)
Definition command : Type := (nat * string * string)%type.

Definition cmd_line (cmd : command) : nat := fst (fst cmd).
Definition cmd_name (cmd : command) : string := snd (fst cmd).
Definition cmd_text (cmd : command) : string := snd cmd.

(** The validator object with its three attributes. *)
Record MXQLValidator : Type := {
  issues : list ValidationIssue;
  lines : list string;
  commands : list command
}.

(** [self.issues.append(issue)] *)
Definition append_issue (self : MXQLValidator) (issue : ValidationIssue)
  : MXQLValidator :=
  {| issues := (issues self ++ [issue])%list;
     lines := lines self;
     commands := commands self |}.

(** [self.commands.append(cmd)] *)
Definition append_command (self : MXQLValidator) (cmd : command)
  : MXQLValidator :=
  {| issues := issues self;
     lines := lines self;
     commands := (commands self ++ [cmd])%list |}.

(** The pattern table, in declaration order. *)
Definition COMMANDS : list (string * string) :=
  [ ("CATEGORY", "^CATEGORY\s+\{.*\}");
    ("TAGLOAD", "^TAGLOAD\s*$");
    ("FLEX-LOAD", "^FLEX-LOAD\s+\{.*\}");
    ("OID", "^OID\s+\[.*\]");
    ("SELECT", "^SELECT\s+\[.*\]");
    ("FILTER", "^FILTER\s+\{.*\}");
    ("GROUP", "^GROUP\s+\{.*\}");
    ("UPDATE", "^UPDATE\s+\{.*\}");
    ("ORDER", "^ORDER\s+\{.*\}");
    ("LIMIT", "^LIMIT\s+\d+");
    ("CREATE", "^CREATE\s+\{.*\}");
    ("DELETE", "^DELETE\s+\[.*\]");
    ("RENAME", "^RENAME\s+\{.*\}");
    ("FORMAT", "^FORMAT\s+\{.*\}");
    ("UNFOLD", "^UNFOLD\s+\[.*\]");
    ("JOIN", "^JOIN\s+\{.*\}");
    ("APPEND", "^APPEND\s+\{.*\}");
    ("SUB", "^SUB\s+\{.*\}");
    ("END", "^END\s*$");
    ("ADDROW", "^ADDROW\s+\{.*\}");
    ("TIMEADD", "^TIMEADD\s+\{.*\}");
    ("TIMEPAST", "^TIMEPAST\s+\w+");
    ("HvText", "^HvText\s+\{.*\}") ].

(** ** [_parse_commands] *)

(** The inner loop over [COMMANDS.items()]: the first name whose pattern
    matches the line. *)
Definition identify (text : string) : option string :=
  match
    find (fun item => Re.is_some (Re.re_match IGNORECASE (snd item) text))
         COMMANDS
  with
  | Some item => Some (fst item)
  | None => None
  end.

Definition parse_line (self : MXQLValidator) (entry : nat * string)
  : MXQLValidator :=
  let i := fst entry in
  let text := strip (snd entry) in
  if String.eqb text "" || startswith text "#" || startswith text "//"
     || startswith text "--"
  then self
  else if startswith text "/*" then self
  else match identify text with
       | Some name => append_command self (i, name, text)
       | None => self
       end.

Definition _parse_commands (self : MXQLValidator) : MXQLValidator :=
  fold_left parse_line (enumerate (lines self) 1) self.

(** ** [_check_syntax] *)

Definition pairs (c : ascii) : option ascii :=
  if Ascii.eqb c "[" then Some "]"%char
  else if Ascii.eqb c "{" then Some "}"%char
  else if Ascii.eqb c "(" then Some ")"%char
  else None.

Definition closing (c : ascii) : bool :=
  Ascii.eqb c "]" || Ascii.eqb c "}" || Ascii.eqb c ")".

Definition unmatched_issue (line_num : nat) (char : ascii) : ValidationIssue :=
  {| severity := CRITICAL;
     line := line_num;
     message := "Unmatched closing bracket '" ++ str1 char ++ "'";
     suggestion := Some "Remove extra closing bracket or add opening bracket" |}.

Definition mismatched_issue (line_num : nat) (expected char : ascii)
  : ValidationIssue :=
  {| severity := CRITICAL;
     line := line_num;
     message := "Mismatched brackets: expected '" ++ str1 expected
                ++ "' but found '" ++ str1 char ++ "'";
     suggestion := Some ("Change '" ++ str1 char ++ "' to '"
                         ++ str1 expected ++ "'") |}.

Definition unclosed_issue (line_num : nat) (top expected : ascii)
  : ValidationIssue :=
  {| severity := CRITICAL;
     line := line_num;
     message := "Unclosed bracket '" ++ str1 top ++ "'";
     suggestion := Some ("Add closing bracket '" ++ str1 expected ++ "'") |}.

(** The character loop of [_check_bracket_balance] and the test that
    follows it.  The head of [stack] is the top of the stack.  A [return]
    inside the loop ends the scan.  The stack only ever holds keys of
    [pairs], so the two [None] branches (a [KeyError]) are never taken. *)
Fixpoint balance_loop (self : MXQLValidator) (line_num : nat)
    (stack : list ascii) (in_string escape : bool) (text : string)
  : MXQLValidator :=
  match text with
  | String char rest =>
      if escape then balance_loop self line_num stack in_string false rest
      else if Ascii.eqb char backslash
      then balance_loop self line_num stack in_string true rest
      else if Ascii.eqb char dq || Ascii.eqb char sq
      then balance_loop self line_num stack (negb in_string) false rest
      else if in_string
      then balance_loop self line_num stack in_string false rest
      else if Re.is_some (pairs char)
      then balance_loop self line_num (char :: stack) in_string false rest
      else if closing char then
        match stack with
        | [] => append_issue self (unmatched_issue line_num char)
        | top :: stack' =>
            match pairs top with
            | Some expected =>
                if negb (Ascii.eqb char expected)
                then append_issue self (mismatched_issue line_num expected char)
                else balance_loop self line_num stack' in_string false rest
            | None => self
            end
        end
      else balance_loop self line_num stack in_string false rest
  | EmptyString =>
      match stack with
      | [] => self
      | top :: _ =>
          match pairs top with
          | Some expected => append_issue self (unclosed_issue line_num top expected)
          | None => self
          end
      end
  end.

Definition _check_bracket_balance (self : MXQLValidator) (line_num : nat)
    (text : string) : MXQLValidator :=
  balance_loop self line_num [] false false text.

Definition unquoted_issue (line_num : nat) (unquoted_fields : list string)
  : ValidationIssue :=
  {| severity := INFO;
     line := line_num;
     message :=
       "Field names without quotes (valid but not recommended for readability)";
     suggestion :=
       Some ("Consider using quotes: " ++ join ", " unquoted_fields) |}.

Definition _check_json_structure (self : MXQLValidator) (line_num : nat)
    (text : string) : MXQLValidator :=
  match Re.re_search false "\{.*\}" text with
  | None => self
  | Some (json_str, _) =>
      let unquoted_fields :=
        (Re.re_findall false "\{\s*(\w+)\s*:" json_str
         ++ Re.re_findall false ",\s*(\w+)\s*:" json_str)%list in
      match unquoted_fields with
      | [] => self
      | _ :: _ => append_issue self (unquoted_issue line_num unquoted_fields)
      end
  end.

(** The [continue] test at the top of the loop of [_check_syntax]. *)
Definition syntax_skipped (text : string) : bool :=
  String.eqb text "" || startswith text "#" || startswith text "//".

Definition syntax_line (self : MXQLValidator) (entry : nat * string)
  : MXQLValidator :=
  let line_num := fst entry in
  let text := strip (snd entry) in
  if syntax_skipped text then self
  else
    let self := _check_bracket_balance self line_num text in
    if has_char "{" text then _check_json_structure self line_num text
    else self.

Definition _check_syntax (self : MXQLValidator) : MXQLValidator :=
  fold_left syntax_line (enumerate (lines self) 1) self.

(** ** [_check_semantics] *)

Definition str_in (x : string) (l : list string) : bool :=
  existsb (String.eqb x) l.

Definition data_loaders : list string :=
  ["TAGLOAD"; "FLEX-LOAD"; "ADDROW"; "APPEND"].

Definition missing_loader_issue : ValidationIssue :=
  {| severity := CRITICAL;
     line := 1;
     message :=
       "Missing data loader command (TAGLOAD, FLEX-LOAD, ADDROW, or APPEND)";
     suggestion := Some "Add TAGLOAD after CATEGORY command" |}.

Definition _check_required_commands (self : MXQLValidator) : MXQLValidator :=
  let command_names := map cmd_name (commands self) in
  let has_loader := existsb (fun cmd => str_in cmd data_loaders) command_names in
  if negb has_loader && negb (str_in "SUB" command_names)
  then append_issue self missing_loader_issue
  else self.

Definition loader_order_issue (line_num : nat) : ValidationIssue :=
  {| severity := WARNING;
     line := line_num;
     message := "Data loader before CATEGORY command";
     suggestion := Some "Move CATEGORY command before TAGLOAD/FLEX-LOAD" |}.

(** One iteration of the loop of [_check_command_order]; the loop state is
    the validator together with [prev_commands]. *)
Definition order_step (st : MXQLValidator * list string) (cmd : command)
  : MXQLValidator * list string :=
  let self := fst st in
  let prev_commands := snd st in
  let self :=
    if str_in (cmd_name cmd) ["TAGLOAD"; "FLEX-LOAD"]
       && negb (str_in "CATEGORY" prev_commands)
    then
      if negb (existsb (fun c => contains "$category" (cmd_text c))
                       (commands self))
      then append_issue self (loader_order_issue (cmd_line cmd))
      else self
    else self in
  (self, (prev_commands ++ [cmd_name cmd])%list).

Definition _check_command_order (self : MXQLValidator) : MXQLValidator :=
  fst (fold_left order_step (commands self) (self, [])).

Definition update_issue (line_num : nat) : ValidationIssue :=
  {| severity := CRITICAL;
     line := line_num;
     message := "UPDATE command without preceding GROUP";
     suggestion := Some "Add GROUP command before UPDATE" |}.

Definition update_step (st : MXQLValidator * bool) (cmd : command)
  : MXQLValidator * bool :=
  let self := fst st in
  let group_found := snd st in
  if String.eqb (cmd_name cmd) "GROUP" then (self, true)
  else if String.eqb (cmd_name cmd) "UPDATE" then
    if negb group_found
    then (append_issue self (update_issue (cmd_line cmd)), group_found)
    else (self, group_found)
  else (self, group_found).

Definition _check_update_requires_group (self : MXQLValidator) : MXQLValidator :=
  fst (fold_left update_step (commands self) (self, false)).

(** [sum(1 for _, cmd, _ in self.commands if cmd == name)] *)
Definition count_named (name : string) (cmds : list command) : nat :=
  list_sum (map (fun _ => 1)
                (filter (fun c => String.eqb (cmd_name c) name) cmds)).

Definition sub_end_issue (sub_count end_count : nat) : ValidationIssue :=
  {| severity := CRITICAL;
     line := 1;
     message := "Mismatched SUB/END: " ++ str_of_int sub_count
                ++ " SUB commands, " ++ str_of_int end_count
                ++ " END commands";
     suggestion := Some "Ensure each SUB has a matching END" |}.

Definition _check_sub_end_pairing (self : MXQLValidator) : MXQLValidator :=
  let sub_count := count_named "SUB" (commands self) in
  let end_count := count_named "END" (commands self) in
  if negb (Nat.eqb sub_count end_count)
  then append_issue self (sub_end_issue sub_count end_count)
  else self.

Definition group_key_issue (line_num : nat) : ValidationIssue :=
  {| severity := CRITICAL;
     line := line_num;
     message := "GROUP uses 'key' parameter - should use 'pk' instead";
     suggestion :=
       Some ("Use GROUP {pk: " ++ str1 dq ++ "field" ++ str1 dq
             ++ "} or GROUP {timeunit: " ++ str1 dq ++ "5m" ++ str1 dq
             ++ ", pk: " ++ str1 dq ++ "field" ++ str1 dq ++ "}") |}.

Definition group_value_issue (line_num : nat) : ValidationIssue :=
  {| severity := CRITICAL;
     line := line_num;
     message :=
       "GROUP uses 'value' parameter - this is UPDATE syntax, not GROUP";
     suggestion :=
       Some "GROUP uses special keywords (pk, timeunit, first, last, merge, etc.), not key-value pairs" |}.

Definition group_step (self : MXQLValidator) (cmd : command) : MXQLValidator :=
  if String.eqb (cmd_name cmd) "GROUP" then
    let self :=
      if Re.is_some (Re.re_search false "\bkey\s*:" (cmd_text cmd))
      then append_issue self (group_key_issue (cmd_line cmd))
      else self in
    if Re.is_some (Re.re_search false "\bvalue\s*:" (cmd_text cmd))
    then append_issue self (group_value_issue (cmd_line cmd))
    else self
  else self.

Definition _check_group_syntax (self : MXQLValidator) : MXQLValidator :=
  fold_left group_step (commands self) self.

Definition _check_semantics (self : MXQLValidator) : MXQLValidator :=
  let self := _check_required_commands self in
  let self := _check_command_order self in
  let self := _check_update_requires_group self in
  let self := _check_sub_end_pairing self in
  _check_group_syntax self.

(** ** [_check_best_practices] *)

Definition first_seen (pos : option nat) (i : nat) : option nat :=
  match pos with
  | None => Some i
  | Some _ => pos
  end.

(** One iteration of the loop of [_check_filter_placement]; the loop state
    is [(filter_pos, group_pos, select_pos)]. *)
Definition placement_step (st : option nat * option nat * option nat)
    (entry : nat * command) : option nat * option nat * option nat :=
  let '(filter_pos, group_pos, select_pos) := st in
  let i := fst entry in
  let name := cmd_name (snd entry) in
  if String.eqb name "FILTER" then (first_seen filter_pos i, group_pos, select_pos)
  else if String.eqb name "GROUP" then (filter_pos, first_seen group_pos i, select_pos)
  else if String.eqb name "SELECT" then (filter_pos, group_pos, first_seen select_pos i)
  else st.

Definition filter_issue (line_num : nat) : ValidationIssue :=
  {| severity := WARNING;
     line := line_num;
     message := "FILTER after GROUP - may impact performance";
     suggestion := Some "Move FILTER before GROUP for better performance" |}.

Definition _check_filter_placement (self : MXQLValidator) : MXQLValidator :=
  let '(filter_pos, group_pos, _) :=
    fold_left placement_step (enumerate (commands self) 0) (None, None, None) in
  match filter_pos, group_pos with
  | Some f, Some g =>
      if Nat.ltb g f then
        match nth_error (commands self) f with
        | Some cmd => append_issue self (filter_issue (cmd_line cmd))
        | None => self
        end
      else self
  | _, _ => self
  end.

Definition select_star_issue (line_num : nat) : ValidationIssue :=
  {| severity := WARNING;
     line := line_num;
     message := "SELECT [*] includes all fields - may impact performance";
     suggestion := Some "Select only needed fields explicitly" |}.

Definition select_step (self : MXQLValidator) (cmd : command) : MXQLValidator :=
  if String.eqb (cmd_name cmd) "SELECT" && contains "[*]" (cmd_text cmd)
  then append_issue self (select_star_issue (cmd_line cmd))
  else self.

Definition _check_select_star (self : MXQLValidator) : MXQLValidator :=
  fold_left select_step (commands self) self.

Definition limit_issue (line_num : nat) : ValidationIssue :=
  {| severity := INFO;
     line := line_num;
     message := "LIMIT without ORDER - results may be arbitrary";
     suggestion :=
       Some "Add ORDER command before LIMIT for predictable Top-N results" |}.

Definition _check_limit_without_order (self : MXQLValidator) : MXQLValidator :=
  let has_order :=
    existsb (fun cmd => String.eqb (cmd_name cmd) "ORDER") (commands self) in
  let has_limit :=
    existsb (fun cmd => String.eqb (cmd_name cmd) "LIMIT") (commands self) in
  if has_limit && negb has_order then
    match find (fun cmd => String.eqb (cmd_name cmd) "LIMIT") (commands self) with
    | Some cmd => append_issue self (limit_issue (cmd_line cmd))
    | None => self
    end
  else self.

Definition _check_best_practices (self : MXQLValidator) : MXQLValidator :=
  let self := _check_filter_placement self in
  let self := _check_select_star self in
  _check_limit_without_order self.

(** ** [validate] *)

(** The three assignments that open [validate]. *)
Definition reset (query : string) : MXQLValidator :=
  {| issues := [];
     lines := split nl (strip query);
     commands := [] |}.

(** The validator as [validate] leaves it.  The attributes it finds are
    overwritten before anything reads them, so the run depends on the query
    only. *)
Definition run (query : string) : MXQLValidator :=
  let self := reset query in
  let self := _parse_commands self in
  let self := _check_syntax self in
  let self := _check_semantics self in
  _check_best_practices self.

(** [validate(query)], returning [(is_valid, issues)]. *)
Definition validate (query : string) : bool * list ValidationIssue :=
  let self := run query in
  let has_critical :=
    existsb (fun issue => Severity_eqb (severity issue) CRITICAL) (issues self) in
  (negb has_critical, issues self).

(** * The test query generator: [test_query_generator.py] *)

(** [s.upper()] as a sequence of code points: on the 8-bit range the
    capital of [ß] is two letters, and the capitals of [µ] and [ÿ] lie
    outside the range. *)
Definition upper_char (c : ascii) : list N :=
  let n := N_of_ascii c in
  if between 97 122 c then [(n - 32)%N]
  else if Nat.eqb (nat_of_ascii c) 181 then [924%N]
  else if Nat.eqb (nat_of_ascii c) 223 then [83%N; 83%N]
  else if between 224 254 c && negb (Nat.eqb (nat_of_ascii c) 247)
  then [(n - 32)%N]
  else if Nat.eqb (nat_of_ascii c) 255 then [376%N]
  else [n].

Fixpoint upper (s : string) : list N :=
  match s with
  | String c rest => (upper_char c ++ upper rest)%list
  | EmptyString => []
  end.

Fixpoint code_points (s : string) : list N :=
  match s with
  | String c rest => N_of_ascii c :: code_points rest
  | EmptyString => []
  end.

(** [u.startswith(p)] on code points. *)
Fixpoint starts_with (u p : list N) {struct p} : bool :=
  match p with
  | [] => true
  | x :: p' =>
      match u with
      | y :: u' => N.eqb y x && starts_with u' p'
      | [] => false
      end
  end.

(** [s.replace(old, new)] for single characters. *)
Fixpoint replace_char (old new : ascii) (s : string) : string :=
  match s with
  | String c rest =>
      String (if Ascii.eqb c old then new else c) (replace_char old new rest)
  | EmptyString => EmptyString
  end.

(** [l.insert(pos, x)]; a position past the end appends. *)
Definition list_insert (A : Type) (l : list A) (pos : nat) (x : A) : list A :=
  (firstn pos l ++ x :: skipn pos l)%list.

(** The first loop of [generate_test_query] over [enumerate(query_lines)]:
    it ends at the first TAGLOAD or FLEX-LOAD line.  The result is
    [(insert_pos, has_category, has_loader)]. *)
Fixpoint loader_loop (entries : list (nat * string)) (has_category : bool)
  : nat * bool * bool :=
  match entries with
  | [] => (0, has_category, false)
  | entry :: rest =>
      let line_stripped := upper (strip (snd entry)) in
      if starts_with line_stripped (code_points "CATEGORY")
      then loader_loop rest true
      else if starts_with line_stripped (code_points "TAGLOAD")
              || starts_with line_stripped (code_points "FLEX-LOAD")
      then (fst entry + 1, has_category, true)
      else loader_loop rest has_category
  end.

(** The second loop: the position after the first CATEGORY line. *)
Fixpoint category_loop (entries : list (nat * string)) (insert_pos : nat)
  : nat :=
  match entries with
  | [] => insert_pos
  | entry :: rest =>
      if starts_with (upper (strip (snd entry))) (code_points "CATEGORY")
      then fst entry + 1
      else category_loop rest insert_pos
  end.

Section TestQueryGenerator.

(** A row of sample data, and [json.dumps(row, separators=(',', ':'))]. *)
Variable Dict : Type.
Variable json_dumps : Dict -> string.

Definition _dict_to_json_inline (data : Dict) : string :=
  replace_char dq sq (json_dumps data).

Definition generate_test_query (original_query : string)
    (sample_data : list Dict) (test_description : option string) : string :=
  let header :=
    match test_description with
    | Some description =>
        if String.eqb description "" then []
        else ["# Test: " ++ description]
    | None => []
    end in
  let rows :=
    map (fun row => "ADDROW " ++ _dict_to_json_inline row) sample_data in
  let query_lines := split nl (strip original_query) in
  let '(insert_pos, has_category, has_loader) :=
    loader_loop (enumerate query_lines 0) false in
  let insert_pos :=
    if negb has_loader && has_category
    then category_loop (enumerate query_lines 0) insert_pos
    else insert_pos in
  let query_lines :=
    list_insert query_lines insert_pos "APPEND {query: test_data}" in
  let test_query_parts :=
    (header
     ++ ["# This query uses ADDROW to inject test data"; "";
         "SUB {id: test_data}"]
     ++ rows
     ++ ["END"; ""]
     ++ query_lines)%list in
  join (str1 nl) test_query_parts.

End TestQueryGenerator.

(** * The category finder: [category_finder.py] *)

(** [CategoryFinder._extract_product_type] *)
Definition _extract_product_type (category_name : string) : string :=
  match split "_"%char category_name with
  | part :: _ => part
  | [] => "unknown"
  end.

(** * Vocabulary of the properties *)

Open Scope list_scope.

Definition with_issues (self : MXQLValidator) (l : list ValidationIssue)
  : MXQLValidator :=
  {| issues := l; lines := lines self; commands := commands self |}.

(** What a check adds when started on an empty issue list. *)
Definition emitted (f : MXQLValidator -> MXQLValidator) (self : MXQLValidator)
  : list ValidationIssue :=
  issues (f (with_issues self [])).

(** [f] leaves [lines] and [commands] alone, never reads [issues], and adds
    its issues at the end. *)
Definition appends (f : MXQLValidator -> MXQLValidator) : Prop :=
  forall self pre,
    f (with_issues self pre) = with_issues self (pre ++ emitted f self).

(** The outputs of a loop that threads an auxiliary state [b] through the
    elements of [l], emitting [g b x] at element [x]. *)
Fixpoint scan_out (A B V : Type) (g : B -> A -> list V) (h : B -> A -> B)
    (b : B) (l : list A) : list V :=
  match l with
  | [] => []
  | x :: l' => g b x ++ scan_out g h (h b x) l'
  end.

Definition blank : MXQLValidator :=
  {| issues := []; lines := []; commands := [] |}.

(** The issues of the balance scan of one line. *)
Definition balance_from (line_num : nat) (stack : list ascii)
    (in_string escape : bool) (text : string) : list ValidationIssue :=
  issues (balance_loop blank line_num stack in_string escape text).

Definition balance_issues (line_num : nat) (text : string)
  : list ValidationIssue :=
  issues (_check_bracket_balance blank line_num text).

(** The issues of the object-shape check of one line. *)
Definition json_issues (line_num : nat) (text : string) : list ValidationIssue :=
  issues (_check_json_structure blank line_num text).

(** The issues [_check_syntax] raises for one entry of [enumerate(lines, 1)]. *)
Definition syntax_line_out (entry : nat * string) : list ValidationIssue :=
  let text := strip (snd entry) in
  if syntax_skipped text then []
  else balance_issues (fst entry) text
       ++ (if has_char "{" text then json_issues (fst entry) text else []).

Definition has_source (cmds : list command) : bool :=
  existsb (fun cmd => str_in cmd data_loaders) (map cmd_name cmds)
  || str_in "SUB" (map cmd_name cmds).

Definition order_out (all : list command) (prev : list string) (cmd : command)
  : list ValidationIssue :=
  if str_in (cmd_name cmd) ["TAGLOAD"; "FLEX-LOAD"]
     && negb (str_in "CATEGORY" prev)
     && negb (existsb (fun c => contains "$category" (cmd_text c)) all)
  then [loader_order_issue (cmd_line cmd)]
  else [].

Definition update_out (group_found : bool) (cmd : command)
  : list ValidationIssue :=
  if negb (String.eqb (cmd_name cmd) "GROUP")
     && String.eqb (cmd_name cmd) "UPDATE" && negb group_found
  then [update_issue (cmd_line cmd)]
  else [].

Definition update_next (group_found : bool) (cmd : command) : bool :=
  String.eqb (cmd_name cmd) "GROUP" || group_found.

Definition group_out (cmd : command) : list ValidationIssue :=
  if String.eqb (cmd_name cmd) "GROUP" then
    (if Re.is_some (Re.re_search false "\bkey\s*:" (cmd_text cmd))
     then [group_key_issue (cmd_line cmd)] else [])
    ++ (if Re.is_some (Re.re_search false "\bvalue\s*:" (cmd_text cmd))
        then [group_value_issue (cmd_line cmd)] else [])
  else [].

Definition select_out (cmd : command) : list ValidationIssue :=
  if String.eqb (cmd_name cmd) "SELECT" && contains "[*]" (cmd_text cmd)
  then [select_star_issue (cmd_line cmd)]
  else [].

(** The check that raised an issue. *)
Inductive origin : Type :=
| Balance | Shape | Required | Order | Update | SubEnd | Group | Placement
| Select | Limit.

Inductive raised_by : origin -> ValidationIssue -> Prop :=
| R_unmatched n c : raised_by Balance (unmatched_issue n c)
| R_mismatched n e c : raised_by Balance (mismatched_issue n e c)
| R_unclosed n t e : raised_by Balance (unclosed_issue n t e)
| R_unquoted n l : raised_by Shape (unquoted_issue n l)
| R_missing : raised_by Required missing_loader_issue
| R_order n : raised_by Order (loader_order_issue n)
| R_update n : raised_by Update (update_issue n)
| R_sub_end a b : raised_by SubEnd (sub_end_issue a b)
| R_group_key n : raised_by Group (group_key_issue n)
| R_group_value n : raised_by Group (group_value_issue n)
| R_filter n : raised_by Placement (filter_issue n)
| R_select n : raised_by Select (select_star_issue n)
| R_limit n : raised_by Limit (limit_issue n).

(** The validator after [_parse_commands]. *)
Definition parsed (query : string) : MXQLValidator :=
  _parse_commands (reset query).

(** The issues of a run, check by check in execution order. *)
Definition run_outputs (self : MXQLValidator) : list (list ValidationIssue) :=
  [ emitted _check_syntax self;
    emitted _check_required_commands self;
    emitted _check_command_order self;
    emitted _check_update_requires_group self;
    emitted _check_sub_end_pairing self;
    emitted _check_group_syntax self;
    emitted _check_filter_placement self;
    emitted _check_select_star self;
    emitted _check_limit_without_order self ].

Definition from (ks : list origin) (d : ValidationIssue) : Prop :=
  exists k, In k ks /\ raised_by k d.

(** The part of a run's issue list that one check contributed. *)
Definition output_of (k : origin) (self : MXQLValidator) : list ValidationIssue :=
  match k with
  | Balance | Shape => emitted _check_syntax self
  | Required => emitted _check_required_commands self
  | Order => emitted _check_command_order self
  | Update => emitted _check_update_requires_group self
  | SubEnd => emitted _check_sub_end_pairing self
  | Group => emitted _check_group_syntax self
  | Placement => emitted _check_filter_placement self
  | Select => emitted _check_select_star self
  | Limit => emitted _check_limit_without_order self
  end.

Definition criticals (l : list ValidationIssue) : list ValidationIssue :=
  filter (fun issue => Severity_eqb (severity issue) CRITICAL) l.

(** The query of the end-to-end scenario. *)
Definition scenario_query : string :=
  join (str1 nl)
    [ "CATEGORY {pk: " ++ str1 dq ++ "host" ++ str1 dq ++ "}";
      "TAGLOAD";
      "FILTER {cpu: >90}";
      "GROUP {pk: " ++ str1 dq ++ "host" ++ str1 dq ++ "}";
      "UPDATE {avg: cpu}";
      "SELECT [host, cpu]" ]%string.

Definition is_missing_loader (d : ValidationIssue) : bool :=
  String.eqb (message d)
    "Missing data loader command (TAGLOAD, FLEX-LOAD, ADDROW, or APPEND)".

Definition is_sub_end (d : ValidationIssue) : bool :=
  String.prefix "Mismatched SUB/END" (message d).

Definition two_subs_one_end : string :=
  join (str1 nl) ["SUB {a}"; "TAGLOAD"; "SUB {b}"; "END"]%string.

Definition is_loader_order (d : ValidationIssue) : bool :=
  String.eqb (message d) "Data loader before CATEGORY command".

(** The placeholder on a line that is no command: CATEGORY without braces
    matches no pattern. *)
Definition placeholder_query : string :=
  join (str1 nl) ["CATEGORY $category"; "TAGLOAD"]%string.

Definition is_unclosed (d : ValidationIssue) : bool :=
  String.prefix "Unclosed bracket" (message d).

(** Two blank lines before the unclosed SELECT line. *)
Definition padded_query : string :=
  String nl (String nl "SELECT [a, b").

Definition is_delim (c : ascii) : bool := Re.is_some (pairs c) || closing c.

(** The delimiter characters of a text, in order. *)
Fixpoint delimiters (text : string) : list ascii :=
  match text with
  | String c rest =>
      if is_delim c then c :: delimiters rest else delimiters rest
  | EmptyString => []
  end.

(** The characters that the balance scan reads as code.  The scan skips
    the character after a backslash, and every quote character, of either
    kind, switches it between code and string: what it takes for a string
    ends at the next quote character of either kind, which need not be the
    matching one.  Backslashes and quote characters themselves are
    dropped. *)
Fixpoint visible (in_string escape : bool) (text : string) : string :=
  match text with
  | String c rest =>
      if escape then visible in_string false rest
      else if Ascii.eqb c backslash then visible in_string true rest
      else if Ascii.eqb c dq || Ascii.eqb c sq
      then visible (negb in_string) false rest
      else if in_string then visible in_string false rest
      else String c (visible in_string false rest)
  | EmptyString => EmptyString
  end.


(** Quoted spans.  A span starts at a quote character and ends at the next
    quote character of the same kind, or with the line when there is none.
    The character directly after a backslash is escaped, inside a span and
    outside, and a backslash that is escaped itself escapes nothing; an
    escaped quote character neither starts nor ends a span.  [quote] is
    the quote character of the span that is open, [escape] tells that the
    previous character is an unescaped backslash. *)
Definition is_quote (c : ascii) : bool := Ascii.eqb c dq || Ascii.eqb c sq.


(** The characters inside the quoted spans, and the escaped ones. *)
Fixpoint shielded (quote : option ascii) (escape : bool) (text : string)
  : string :=
  match text with
  | String c rest =>
      if escape then String c (shielded quote false rest)
      else if Ascii.eqb c backslash then shielded quote true rest
      else match quote with
           | Some q =>
               if Ascii.eqb c q then shielded None false rest
               else String c (shielded quote false rest)
           | None =>
               if is_quote c then shielded (Some c) false rest
               else shielded None false rest
           end
  | EmptyString => EmptyString
  end.

(** Some quoted span holds an unescaped quote character of the other
    kind, as the span of ["it's"] does. *)
Fixpoint mixed_quotes (quote : option ascii) (escape : bool) (text : string)
  : bool :=
  match text with
  | String c rest =>
      if escape then mixed_quotes quote false rest
      else if Ascii.eqb c backslash then mixed_quotes quote true rest
      else match quote with
           | Some q =>
               if Ascii.eqb c q then mixed_quotes None false rest
               else if is_quote c then true
               else mixed_quotes quote false rest
           | None =>
               if is_quote c then mixed_quotes (Some c) false rest
               else mixed_quotes None false rest
           end
  | EmptyString => false
  end.

(** A line with a double-quoted span that holds an apostrophe. *)
Definition apostrophe_line : string :=
  ("FILTER {name: " ++ String dq "it's" ++ String dq "}")%string.

(** Sequences of delimiters that are balanced and properly nested. *)
Inductive Dyck : list ascii -> Prop :=
| Dyck_nil : Dyck []
| Dyck_wrap o c w1 w2 :
    pairs o = Some c -> Dyck w1 -> Dyck w2 -> Dyck (o :: w1 ++ c :: w2).

(** [Pending stack w]: the delimiters [w] close the open delimiters of
    [stack], innermost first, and are balanced in between and after. *)
Inductive Pending : list ascii -> list ascii -> Prop :=
| Pending_done w : Dyck w -> Pending [] w
| Pending_close_top o c stack w1 w2 :
    pairs o = Some c -> Dyck w1 -> Pending stack w2 ->
    Pending (o :: stack) (w1 ++ c :: w2).


(** The two [continue] tests of the loop of [_parse_commands]. *)
Definition parse_skipped (text : string) : bool :=
  (String.eqb text "" || startswith text "#" || startswith text "//"
   || startswith text "--")
  || startswith text "/*".

(** The entries that one element of [enumerate(lines, 1)] contributes. *)
Definition parse_entry (entry : nat * string) : list command :=
  let text := strip (snd entry) in
  if parse_skipped text then []
  else match identify text with
       | Some name => [(fst entry, name, text)]
       | None => []
       end.

Definition is_update (d : ValidationIssue) : bool :=
  String.eqb (message d) "UPDATE command without preceding GROUP".

Definition is_limit (d : ValidationIssue) : bool :=
  String.eqb (message d) "LIMIT without ORDER - results may be arbitrary".

Definition is_placement (d : ValidationIssue) : bool :=
  String.eqb (message d) "FILTER after GROUP - may impact performance".

(** The position, counted from [start], of the first entry named [name]. *)
Fixpoint first_index (name : string) (cmds : list command) (start : nat)
  : option nat :=
  match cmds with
  | [] => None
  | c :: rest =>
      if String.eqb (cmd_name c) name then Some start
      else first_index name rest (S start)
  end.

Definition or_else (A : Type) (a b : option A) : option A :=
  match a with
  | Some _ => a
  | None => b
  end.

Definition update_query : string :=
  join (str1 nl) ["TAGLOAD"; "UPDATE {avg: cpu}"; "GROUP {pk: host}";
                  "UPDATE {max: cpu}"]%string.

Definition limit_query : string :=
  join (str1 nl) ["TAGLOAD"; "LIMIT 5"; "LIMIT 9"]%string.

Definition placement_query : string :=
  join (str1 nl) ["TAGLOAD"; "GROUP {pk: host}"; "FILTER {cpu: 1}";
                  "FILTER {mem: 2}"]%string.

Definition is_balance (d : ValidationIssue) : bool :=
  String.prefix "Unmatched closing bracket" (message d)
  || String.prefix "Mismatched brackets" (message d)
  || String.prefix "Unclosed bracket" (message d).

Definition is_shape (d : ValidationIssue) : bool :=
  String.prefix "Field names without quotes" (message d).

Definition at_line (n : nat) (d : ValidationIssue) : bool := Nat.eqb (line d) n.

Definition unbalanced_query : string :=
  join (str1 nl) ["TAGLOAD"; "SELECT [a)) ((]]"]%string.

Definition noncritical (d : ValidationIssue) : Prop := severity d <> CRITICAL.

(** A text with every character lower-cased: [str.lower] on text of the
    code points U+0000..U+00FF, where it keeps the length of the text. *)
Fixpoint fold_case (s : string) : string :=
  match s with
  | String c rest => String (lower c) (fold_case rest)
  | EmptyString => EmptyString
  end.

(** The text is over or goes on with white space. *)
Definition gap (text : string) : bool :=
  match text with
  | String c _ => isspace c
  | EmptyString => true
  end.

(** The text starts with the keyword, in any case, followed by a gap. *)
Fixpoint starts_keyword (kw text : string) : bool :=
  match kw with
  | EmptyString => gap text
  | String k kw' =>
      match text with
      | String c rest => Ascii.eqb (lower c) (lower k) && starts_keyword kw' rest
      | EmptyString => false
      end
  end.

Fixpoint no_space (kw : string) : bool :=
  match kw with
  | String k kw' => negb (isspace (lower k)) && no_space kw'
  | EmptyString => true
  end.

(** The pattern of a literal keyword. *)
Fixpoint lits (kw : string) : Re.pattern :=
  match kw with
  | String k kw' => Re.One (Re.Lit k) :: lits kw'
  | EmptyString => []
  end.

(** What follows the keyword in a pattern of the table asks for white space
    or for the end of the text. *)
Definition gap_tail (tail : Re.pattern) : bool :=
  match tail with
  | Re.Many1 Re.Space :: _ => true
  | [Re.Many Re.Space; Re.Eol] => true
  | _ => false
  end.

(** The line matches the pattern of an item of the table. *)
Definition matches (item : string * string) (text : string) : bool :=
  Re.is_some (Re.re_match IGNORECASE (snd item) text).

Definition item_eqb (a b : string * string) : bool :=
  String.eqb (fst a) (fst b) && String.eqb (snd a) (snd b).

Definition opt_lower (c : option ascii) : option ascii :=
  match c with
  | Some x => Some (lower x)
  | None => None
  end.

(** The stack discipline of the balance scan on a list of delimiters: the
    issues of scanning [w] at line [n] from [stack]. *)
Fixpoint scan_delimiters (n : nat) (stack : list ascii) (w : list ascii)
  : list ValidationIssue :=
  match w with
  | c :: rest =>
      match pairs c with
      | Some _ => scan_delimiters n (c :: stack) rest
      | None =>
          match stack with
          | [] => [unmatched_issue n c]
          | top :: stack' =>
              match pairs top with
              | Some expected =>
                  if Ascii.eqb c expected then scan_delimiters n stack' rest
                  else [mismatched_issue n expected c]
              | None => []
              end
          end
      end
  | [] =>
      match stack with
      | [] => []
      | top :: _ =>
          match pairs top with
          | Some expected => [unclosed_issue n top expected]
          | None => []
          end
      end
  end.

(** [Open stack w]: the delimiters [w] nest properly so far and leave the
    delimiters of [stack] open, the innermost first. *)
Inductive Open : list ascii -> list ascii -> Prop :=
| Open_none w : Dyck w -> Open [] w
| Open_more o c stack w1 w2 :
    pairs o = Some c -> Open stack w1 -> Dyck w2 ->
    Open (o :: stack) (w1 ++ o :: w2).

Definition diagnosis_line_1 : string := "SELECT [a, {b: (c)]".
Definition diagnosis_line_2 : string := "FILTER {a: (1)} ) [x".
Definition diagnosis_line_3 : string := "ORDER {key: [a, (b}".

(** The character before the end of [a], or [prev] when [a] is empty. *)
Fixpoint last_char (prev : option ascii) (a : string) : option ascii :=
  match a with
  | String c rest => last_char (Some c) rest
  | EmptyString => prev
  end.

Fixpoint all_space (s : string) : bool :=
  match s with
  | String c rest => isspace c && all_space rest
  | EmptyString => true
  end.

(** The text holds the parameter [kw]: the word, not preceded by a word
    character, then optional white space and a colon. *)
Definition has_parameter (kw text : string) : Prop :=
  exists a sp b,
    text = (a ++ kw ++ sp ++ ":" ++ b)%string
    /\ all_space sp = true
    /\ Re.opt_word (last_char None a) = false.

Definition is_group_key (d : ValidationIssue) : bool :=
  String.eqb (message d) "GROUP uses 'key' parameter - should use 'pk' instead".

Definition is_group_value (d : ValidationIssue) : bool :=
  String.eqb (message d)
    "GROUP uses 'value' parameter - this is UPDATE syntax, not GROUP".

Definition group_query : string :=
  join (str1 nl) ["TAGLOAD"; "GROUP {key : host, pkey: a, value:1}"]%string.

Definition is_select_star (d : ValidationIssue) : bool :=
  String.eqb (message d) "SELECT [*] includes all fields - may impact performance".

Definition star_query : string :=
  join (str1 nl) ["TAGLOAD"; "SELECT [a] -- not [*] "]%string.

(** An entry without its line number. *)
Definition unnumbered (c : command) : string * string := (cmd_name c, cmd_text c).

(** The names and texts of the entries that one raw line contributes. *)
Definition parse_text (raw : string) : list (string * string) :=
  map unnumbered (parse_entry (0, raw)).

Definition commented_query : string :=
  join (str1 nl) ["TAGLOAD"; "# SELECT [a"; "SELECT [a]"]%string.

Definition uncommented_query : string :=
  join (str1 nl) ["TAGLOAD"; "SELECT [a]"]%string.

Definition indented_query : string :=
  join (str1 nl) ["TAGLOAD   "; "    SELECT [a"; "  LIMIT 3"]%string.

Definition flush_query : string :=
  join (str1 nl) ["TAGLOAD"; "SELECT [a"; "LIMIT 3"]%string.

(** The text starts with the keyword, in any letter case. *)
Fixpoint starts_any_case (kw text : string) : bool :=
  match kw with
  | EmptyString => true
  | String k kw' =>
      match text with
      | String c rest => Ascii.eqb (lower c) (lower k) && starts_any_case kw' rest
      | EmptyString => false
      end
  end.

(** What the generator takes for a data loader line and for a CATEGORY
    line of the original query. *)
Definition loader_line (l : string) : bool :=
  starts_any_case "TAGLOAD" (strip l) || starts_any_case "FLEX-LOAD" (strip l).

Definition category_line (l : string) : bool :=
  starts_any_case "CATEGORY" (strip l).

(** [pre] ends with the first of its lines that satisfies [p]. *)
Definition ends_at_first (p : string -> bool) (pre : list string) : Prop :=
  exists before l,
    pre = before ++ [l] /\ p l = true /\ forall x, In x before -> p x = false.

(** The letters of the generator's keywords. *)
Definition keyword_chars : list ascii := list_ascii_of_string "CATEGORYLDFX-".

(** * Properties *)

(** ** Every check only appends to [self.issues] *)

Section Frames.

Lemma with_issues_self (self : MXQLValidator) :
  with_issues self (issues self) = self.
Proof. destruct self; reflexivity. Qed.

Lemma appends_apply f (self : MXQLValidator) :
  appends f -> f self = with_issues self (issues self ++ emitted f self).
Proof.
  intros H. rewrite <- (with_issues_self self) at 1. apply H.
Qed.

Lemma appends_intro f (out : MXQLValidator -> list ValidationIssue) :
  (forall self pre, f (with_issues self pre) = with_issues self (pre ++ out self)) ->
  appends f /\ forall self, emitted f self = out self.
Proof.
  intros H.
  assert (E : forall self, emitted f self = out self).
  { intros self. unfold emitted. rewrite H. reflexivity. }
  split; [|exact E].
  intros self pre. rewrite E. apply H.
Qed.

(** A loop whose body appends [g x] for each element [x]. *)
Lemma fold_appends (A : Type) (step : MXQLValidator -> A -> MXQLValidator)
    (g : MXQLValidator -> A -> list ValidationIssue) :
  (forall self pre x,
      step (with_issues self pre) x = with_issues self (pre ++ g self x)) ->
  forall l self pre,
    fold_left step l (with_issues self pre)
    = with_issues self (pre ++ flat_map (g self) l).
Proof.
  intros Hstep l. induction l as [|x l IH]; intros self pre; simpl.
  - rewrite app_nil_r. reflexivity.
  - rewrite Hstep, IH, <- app_assoc. reflexivity.
Qed.

(** The same for a loop with an auxiliary state next to the validator. *)
Lemma fold_pair_appends (A B : Type)
    (step : MXQLValidator * B -> A -> MXQLValidator * B)
    (g : MXQLValidator -> B -> A -> list ValidationIssue) (h : B -> A -> B) :
  (forall self pre b x,
      step (with_issues self pre, b) x
      = (with_issues self (pre ++ g self b x), h b x)) ->
  forall l self pre b,
    fold_left step l (with_issues self pre, b)
    = (with_issues self (pre ++ scan_out (g self) h b l), fold_left h l b).
Proof.
  intros Hstep l. induction l as [|x l IH]; intros self pre b; simpl.
  - rewrite app_nil_r. reflexivity.
  - rewrite Hstep, IH, <- app_assoc. reflexivity.
Qed.

Lemma in_scan_out (A B V : Type) (g : B -> A -> list V) (h : B -> A -> B)
    (v : V) (l : list A) (b : B) :
  In v (scan_out g h b l) <->
  exists pre x post, l = pre ++ x :: post /\ In v (g (fold_left h pre b) x).
Proof.
  revert b. induction l as [|x l IH]; intros b; simpl.
  - split; [tauto|]. intros (pre & y & post & E & _).
    destruct pre; discriminate.
  - rewrite in_app_iff, IH. split.
    + intros [H | (pre & y & post & E & H)].
      * exists [], x, l. split; [reflexivity | exact H].
      * exists (x :: pre), y, post. split; [simpl; congruence | exact H].
    + intros (pre & y & post & E & H). destruct pre as [|z pre]; simpl in E.
      * injection E as <- <-. left. exact H.
      * injection E as <- ->. right. exists pre, y, post. split; [reflexivity | exact H].
Qed.

End Frames.

(** ** What each check emits *)

Section Checks.

Lemma balance_loop_frame text : forall self pre n stack i e,
  balance_loop (with_issues self pre) n stack i e text
  = with_issues self (pre ++ balance_from n stack i e text).
Proof.
  unfold balance_from.
  induction text as [|c text IH]; intros self pre n stack i e; simpl.
  - destruct stack as [|top stack]; simpl.
    + rewrite app_nil_r; reflexivity.
    + destruct (pairs top); simpl; [reflexivity | rewrite app_nil_r; reflexivity].
  - destruct e; [apply IH|].
    destruct (Ascii.eqb c backslash); [apply IH|].
    destruct (Ascii.eqb c dq || Ascii.eqb c sq); [apply IH|].
    destruct i; [apply IH|].
    destruct (Re.is_some (pairs c)); [apply IH|].
    destruct (closing c); [|apply IH].
    destruct stack as [|top stack]; [reflexivity|].
    destruct (pairs top) as [expected|]; simpl.
    + destruct (negb (Ascii.eqb c expected)); [reflexivity | apply IH].
    + rewrite app_nil_r; reflexivity.
Qed.

Lemma check_bracket_balance_frame self pre n text :
  _check_bracket_balance (with_issues self pre) n text
  = with_issues self (pre ++ balance_issues n text).
Proof. apply balance_loop_frame. Qed.

Lemma check_json_structure_frame self pre n text :
  _check_json_structure (with_issues self pre) n text
  = with_issues self (pre ++ json_issues n text).
Proof.
  unfold json_issues, _check_json_structure.
  destruct (Re.re_search false "\{.*\}" text) as [[json_str caps]|]; simpl.
  - destruct (Re.re_findall false "\{\s*(\w+)\s*:" json_str
              ++ Re.re_findall false ",\s*(\w+)\s*:" json_str); simpl.
    + rewrite app_nil_r; reflexivity.
    + reflexivity.
  - rewrite app_nil_r; reflexivity.
Qed.

Lemma syntax_line_frame self pre entry :
  syntax_line (with_issues self pre) entry
  = with_issues self (pre ++ syntax_line_out entry).
Proof.
  unfold syntax_line, syntax_line_out.
  destruct (syntax_skipped (strip (snd entry))).
  - rewrite app_nil_r; reflexivity.
  - rewrite check_bracket_balance_frame.
    destruct (has_char "{" (strip (snd entry))).
    + rewrite check_json_structure_frame, app_assoc. reflexivity.
    + rewrite app_nil_r. reflexivity.
Qed.

Lemma check_syntax_spec :
  appends _check_syntax
  /\ forall self,
       emitted _check_syntax self
       = flat_map syntax_line_out (enumerate (lines self) 1).
Proof.
  apply appends_intro. intros self pre. unfold _check_syntax. simpl lines.
  apply (@fold_appends _ syntax_line (fun _ => syntax_line_out)).
  intros; apply syntax_line_frame.
Qed.

Lemma check_required_commands_spec :
  appends _check_required_commands
  /\ forall self,
       emitted _check_required_commands self
       = if has_source (commands self) then [] else [missing_loader_issue].
Proof.
  apply appends_intro. intros self pre.
  unfold _check_required_commands, has_source. simpl commands.
  rewrite <- negb_orb.
  destruct (_ || _); simpl.
  - rewrite app_nil_r; reflexivity.
  - reflexivity.
Qed.

Lemma check_command_order_spec :
  appends _check_command_order
  /\ forall self,
       emitted _check_command_order self
       = scan_out (order_out (commands self))
                  (fun prev cmd => prev ++ [cmd_name cmd]) [] (commands self).
Proof.
  apply appends_intro. intros self pre. unfold _check_command_order.
  simpl commands.
  rewrite (@fold_pair_appends _ _ order_step
             (fun s => order_out (commands s))
             (fun prev cmd => prev ++ [cmd_name cmd])).
  - reflexivity.
  - intros s p b x. unfold order_step, order_out. cbn [fst snd].
    change (commands (with_issues s p)) with (commands s).
    destruct (str_in (cmd_name x) ["TAGLOAD"; "FLEX-LOAD"]);
      destruct (str_in "CATEGORY" b);
      destruct (existsb _ (commands s));
      cbn [andb negb]; rewrite ?app_nil_r; reflexivity.
Qed.

Lemma check_update_requires_group_spec :
  appends _check_update_requires_group
  /\ forall self,
       emitted _check_update_requires_group self
       = scan_out update_out update_next false (commands self).
Proof.
  apply appends_intro. intros self pre. unfold _check_update_requires_group.
  simpl commands.
  rewrite (@fold_pair_appends _ _ update_step (fun _ => update_out) update_next).
  - reflexivity.
  - intros s p b x. unfold update_step, update_out, update_next. cbn [fst snd].
    destruct (String.eqb (cmd_name x) "GROUP");
      destruct (String.eqb (cmd_name x) "UPDATE");
      destruct b; cbn [andb orb negb]; rewrite ?app_nil_r; reflexivity.
Qed.

Lemma check_sub_end_pairing_spec :
  appends _check_sub_end_pairing
  /\ forall self,
       emitted _check_sub_end_pairing self
       = let sub_count := count_named "SUB" (commands self) in
         let end_count := count_named "END" (commands self) in
         if Nat.eqb sub_count end_count then []
         else [sub_end_issue sub_count end_count].
Proof.
  apply appends_intro. intros self pre.
  unfold _check_sub_end_pairing. simpl commands.
  destruct (Nat.eqb _ _); simpl.
  - rewrite app_nil_r; reflexivity.
  - reflexivity.
Qed.

End Checks.

Section Pipeline.

Lemma check_group_syntax_spec :
  appends _check_group_syntax
  /\ forall self,
       emitted _check_group_syntax self = flat_map group_out (commands self).
Proof.
  apply appends_intro. intros self pre. unfold _check_group_syntax.
  simpl commands.
  apply (@fold_appends _ group_step (fun _ => group_out)).
  intros s p x. unfold group_step, group_out.
  destruct (String.eqb (cmd_name x) "GROUP").
  - destruct (Re.is_some (Re.re_search false "\bkey\s*:" (cmd_text x)));
      destruct (Re.is_some (Re.re_search false "\bvalue\s*:" (cmd_text x)));
      cbn [app]; rewrite ?app_nil_r; try reflexivity.
    unfold append_issue, with_issues; simpl. rewrite <- app_assoc. reflexivity.
  - rewrite app_nil_r; reflexivity.
Qed.

Lemma check_select_star_spec :
  appends _check_select_star
  /\ forall self,
       emitted _check_select_star self = flat_map select_out (commands self).
Proof.
  apply appends_intro. intros self pre. unfold _check_select_star.
  simpl commands.
  apply (@fold_appends _ select_step (fun _ => select_out)).
  intros s p x. unfold select_step, select_out.
  destruct (_ && _); rewrite ?app_nil_r; reflexivity.
Qed.

Lemma check_filter_placement_spec :
  appends _check_filter_placement
  /\ forall self, Forall (raised_by Placement) (emitted _check_filter_placement self).
Proof.
  split.
  - intros self pre. unfold emitted, _check_filter_placement. simpl commands.
    destruct (fold_left placement_step _ _) as [[[f|] [g|]] sel];
      simpl; rewrite ?app_nil_r; try reflexivity.
    destruct (Nat.ltb g f); simpl; rewrite ?app_nil_r; try reflexivity.
    destruct (nth_error (commands self) f); simpl; rewrite ?app_nil_r; reflexivity.
  - intros self. unfold emitted, _check_filter_placement. simpl commands.
    destruct (fold_left placement_step _ _) as [[[f|] [g|]] sel];
      simpl; try constructor.
    destruct (Nat.ltb g f); simpl; try constructor.
    destruct (nth_error (commands self) f); simpl; repeat constructor.
Qed.

Lemma check_limit_without_order_spec :
  appends _check_limit_without_order
  /\ forall self, Forall (raised_by Limit) (emitted _check_limit_without_order self).
Proof.
  split.
  - intros self pre. unfold emitted, _check_limit_without_order. simpl commands.
    destruct (_ && _); simpl; rewrite ?app_nil_r; try reflexivity.
    destruct (find _ (commands self)); simpl; rewrite ?app_nil_r; reflexivity.
  - intros self. unfold emitted, _check_limit_without_order. simpl commands.
    destruct (_ && _); simpl; try constructor.
    destruct (find _ (commands self)); simpl; repeat constructor.
Qed.

Lemma parse_line_keeps self entry :
  issues (parse_line self entry) = issues self
  /\ lines (parse_line self entry) = lines self.
Proof.
  unfold parse_line.
  destruct (_ || _); [split; reflexivity|].
  destruct (startswith _ _); [split; reflexivity|].
  destruct (identify _); split; reflexivity.
Qed.

Lemma parse_commands_keeps self :
  issues (_parse_commands self) = issues self
  /\ lines (_parse_commands self) = lines self.
Proof.
  unfold _parse_commands. generalize (enumerate (lines self) 1) as l.
  intros l. revert self. induction l as [|x l IH]; intros self; simpl.
  - split; reflexivity.
  - destruct (IH (parse_line self x)) as [-> ->]. apply parse_line_keeps.
Qed.

Lemma parsed_issues q : issues (parsed q) = [].
Proof. apply (parse_commands_keeps (reset q)). Qed.

Lemma parsed_lines q : lines (parsed q) = split nl (strip q).
Proof. apply (parse_commands_keeps (reset q)). Qed.

Lemma run_eq q :
  run q = with_issues (parsed q) (concat (run_outputs (parsed q))).
Proof.
  unfold run, _check_semantics, _check_best_practices. fold (parsed q).
  rewrite (appends_apply (parsed q) (proj1 check_syntax_spec)), parsed_issues.
  rewrite (proj1 check_required_commands_spec).
  rewrite (proj1 check_command_order_spec).
  rewrite (proj1 check_update_requires_group_spec).
  rewrite (proj1 check_sub_end_pairing_spec).
  rewrite (proj1 check_group_syntax_spec).
  rewrite (proj1 check_filter_placement_spec).
  rewrite (proj1 check_select_star_spec).
  rewrite (proj1 check_limit_without_order_spec).
  unfold run_outputs, concat. rewrite app_nil_r, <- !app_assoc. reflexivity.
Qed.

Lemma run_commands q : commands (run q) = commands (parsed q).
Proof. rewrite run_eq. reflexivity. Qed.


Lemma validate_issues q :
  snd (validate q) = concat (run_outputs (parsed q)).
Proof. change (snd (validate q)) with (issues (run q)). rewrite run_eq. reflexivity. Qed.

End Pipeline.

(** ** Where the issues of a run come from *)

Section Origins.

Lemma from_one k d : raised_by k d -> from [k] d.
Proof. intros H. exists k. split; [left; reflexivity | exact H]. Qed.

Lemma Forall_scan_out (A B V : Type) (P : V -> Prop)
    (g : B -> A -> list V) (h : B -> A -> B) :
  (forall b x, Forall P (g b x)) ->
  forall l b, Forall P (scan_out g h b l).
Proof.
  intros Hg l. induction l as [|x l IH]; intros b; simpl.
  - constructor.
  - apply Forall_app. split; [apply Hg | apply IH].
Qed.

Lemma Forall_flat_map_all (A V : Type) (P : V -> Prop) (g : A -> list V) l :
  (forall x, Forall P (g x)) -> Forall P (flat_map g l).
Proof.
  intros Hg. induction l as [|x l IH]; simpl.
  - constructor.
  - apply Forall_app. split; [apply Hg | exact IH].
Qed.

Lemma balance_from_origin text : forall n stack i e,
  Forall (raised_by Balance) (balance_from n stack i e text).
Proof.
  unfold balance_from.
  induction text as [|c text IH]; intros n stack i e; simpl.
  - destruct stack as [|top stack]; simpl; [constructor|].
    destruct (pairs top); simpl; repeat constructor.
  - destruct e; [apply IH|].
    destruct (Ascii.eqb c backslash); [apply IH|].
    destruct (Ascii.eqb c dq || Ascii.eqb c sq); [apply IH|].
    destruct i; [apply IH|].
    destruct (Re.is_some (pairs c)); [apply IH|].
    destruct (closing c); [|apply IH].
    destruct stack as [|top stack]; [repeat constructor|].
    destruct (pairs top) as [expected|]; simpl; [|constructor].
    destruct (negb (Ascii.eqb c expected)); [repeat constructor | apply IH].
Qed.

Lemma balance_issues_origin n text :
  Forall (raised_by Balance) (balance_issues n text).
Proof. apply balance_from_origin. Qed.

Lemma json_issues_origin n text : Forall (raised_by Shape) (json_issues n text).
Proof.
  unfold json_issues, _check_json_structure.
  destruct (Re.re_search false "\{.*\}" text) as [[json_str caps]|];
    [|constructor].
  destruct (Re.re_findall false "\{\s*(\w+)\s*:" json_str
            ++ Re.re_findall false ",\s*(\w+)\s*:" json_str);
    repeat constructor.
Qed.

Lemma syntax_origin self :
  Forall (from [Balance; Shape]) (emitted _check_syntax self).
Proof.
  rewrite (proj2 check_syntax_spec). apply Forall_flat_map_all.
  intros entry. unfold syntax_line_out.
  destruct (syntax_skipped _); [constructor|].
  apply Forall_app. split.
  - eapply Forall_impl; [|apply balance_issues_origin].
    intros d H. exists Balance. split; [left; reflexivity | exact H].
  - destruct (has_char _ _); [|constructor].
    eapply Forall_impl; [|apply json_issues_origin].
    intros d H. exists Shape. split; [right; left; reflexivity | exact H].
Qed.

Lemma required_origin self :
  Forall (from [Required]) (emitted _check_required_commands self).
Proof.
  rewrite (proj2 check_required_commands_spec).
  destruct (has_source _); repeat constructor. apply from_one. constructor.
Qed.

Lemma order_origin self :
  Forall (from [Order]) (emitted _check_command_order self).
Proof.
  rewrite (proj2 check_command_order_spec). apply Forall_scan_out.
  intros b x. unfold order_out.
  destruct (_ && _); repeat constructor. apply from_one. constructor.
Qed.

Lemma update_origin self :
  Forall (from [Update]) (emitted _check_update_requires_group self).
Proof.
  rewrite (proj2 check_update_requires_group_spec). apply Forall_scan_out.
  intros b x. unfold update_out.
  destruct (_ && _); repeat constructor. apply from_one. constructor.
Qed.

Lemma sub_end_origin self :
  Forall (from [SubEnd]) (emitted _check_sub_end_pairing self).
Proof.
  rewrite (proj2 check_sub_end_pairing_spec). cbv zeta.
  destruct (Nat.eqb _ _); repeat constructor. apply from_one. constructor.
Qed.

Lemma group_origin self :
  Forall (from [Group]) (emitted _check_group_syntax self).
Proof.
  rewrite (proj2 check_group_syntax_spec). apply Forall_flat_map_all.
  intros x. unfold group_out.
  destruct (String.eqb _ _); [|constructor].
  apply Forall_app. split.
  - destruct (Re.is_some _); repeat constructor. apply from_one. constructor.
  - destruct (Re.is_some _); repeat constructor. apply from_one. constructor.
Qed.

Lemma placement_origin self :
  Forall (from [Placement]) (emitted _check_filter_placement self).
Proof.
  eapply Forall_impl; [|apply (proj2 check_filter_placement_spec)].
  intros d. apply from_one.
Qed.

Lemma select_origin self :
  Forall (from [Select]) (emitted _check_select_star self).
Proof.
  rewrite (proj2 check_select_star_spec). apply Forall_flat_map_all.
  intros x. unfold select_out.
  destruct (_ && _); repeat constructor. apply from_one. constructor.
Qed.

Lemma limit_origin self :
  Forall (from [Limit]) (emitted _check_limit_without_order self).
Proof.
  eapply Forall_impl; [|apply (proj2 check_limit_without_order_spec)].
  intros d. apply from_one.
Qed.

Lemma filter_foreign (p : ValidationIssue -> bool) ks l :
  Forall (from ks) l ->
  (forall k d, In k ks -> raised_by k d -> p d = false) ->
  filter p l = [].
Proof.
  intros Hl Hp. induction Hl as [|d l (k & Hk & Hd) _ IH]; simpl.
  - reflexivity.
  - rewrite (Hp k d Hk Hd). exact IH.
Qed.

End Origins.

Section Selection.

Lemma filter_out (p : ValidationIssue -> bool) ks l k0 :
  Forall (from ks) l ->
  ~ In k0 ks ->
  (forall k d, raised_by k d -> p d = true -> k = k0) ->
  filter p l = [].
Proof.
  intros Hl Hk0 Hp. apply (filter_foreign p Hl).
  intros k d Hk Hd. destruct (p d) eqn:E; [|reflexivity].
  apply (Hp k d Hd) in E. subst k. contradiction.
Qed.

(** Remove from the goal the filtered outputs of the checks other than
    the one that [p] selects. *)
Ltac drop_foreign p k0 H :=
  let side := (first [exact H | simpl; intuition discriminate]) in
  repeat match goal with
  | |- context [filter p (emitted _check_syntax ?s)] =>
      rewrite (@filter_out p _ _ k0 (syntax_origin s)) by side
  | |- context [filter p (emitted _check_required_commands ?s)] =>
      rewrite (@filter_out p _ _ k0 (required_origin s)) by side
  | |- context [filter p (emitted _check_command_order ?s)] =>
      rewrite (@filter_out p _ _ k0 (order_origin s)) by side
  | |- context [filter p (emitted _check_update_requires_group ?s)] =>
      rewrite (@filter_out p _ _ k0 (update_origin s)) by side
  | |- context [filter p (emitted _check_sub_end_pairing ?s)] =>
      rewrite (@filter_out p _ _ k0 (sub_end_origin s)) by side
  | |- context [filter p (emitted _check_group_syntax ?s)] =>
      rewrite (@filter_out p _ _ k0 (group_origin s)) by side
  | |- context [filter p (emitted _check_filter_placement ?s)] =>
      rewrite (@filter_out p _ _ k0 (placement_origin s)) by side
  | |- context [filter p (emitted _check_select_star ?s)] =>
      rewrite (@filter_out p _ _ k0 (select_origin s)) by side
  | |- context [filter p (emitted _check_limit_without_order ?s)] =>
      rewrite (@filter_out p _ _ k0 (limit_origin s)) by side
  end.

(** A predicate that only holds of the issues of check [k0] selects, from
    the issues of a run, what [k0] contributed. *)
Lemma filter_by_origin (p : ValidationIssue -> bool) (k0 : origin) q :
  k0 <> Balance -> k0 <> Shape ->
  (forall k d, raised_by k d -> p d = true -> k = k0) ->
  filter p (snd (validate q)) = filter p (output_of k0 (parsed q)).
Proof.
  intros NB NS H. rewrite validate_issues.
  unfold run_outputs, concat. rewrite !filter_app.
  destruct k0; try congruence; cbn [output_of];
    match type of H with
    | forall k d, _ -> _ -> k = ?k0 => drop_foreign p k0 H
    end;
    cbn [app]; rewrite ?app_nil_r; reflexivity.
Qed.

Lemma str_in_iff x l : str_in x l = true <-> In x l.
Proof.
  unfold str_in. rewrite existsb_exists. split.
  - intros (y & Hy & E). apply String.eqb_eq in E. subst. exact Hy.
  - intros H. exists x. split; [exact H | apply String.eqb_refl].
Qed.

Lemma has_source_iff cmds :
  has_source cmds = true <->
  exists c, In c cmds
            /\ In (cmd_name c) ["TAGLOAD"; "FLEX-LOAD"; "ADDROW"; "APPEND"; "SUB"].
Proof.
  unfold has_source. rewrite orb_true_iff, existsb_exists, str_in_iff, in_map_iff.
  split.
  - intros [(x & Hx & Hl) | (c & E & Hc)].
    + apply in_map_iff in Hx. destruct Hx as (c & <- & Hc).
      apply str_in_iff in Hl. exists c. split; [exact Hc|].
      unfold data_loaders in Hl. simpl in *. intuition.
    + exists c. split; [exact Hc|]. rewrite E. simpl. intuition.
  - intros (c & Hc & Hn). simpl in Hn.
    destruct Hn as [E|[E|[E|[E|[E|[]]]]]].
    1-4: left; exists (cmd_name c); split;
         [apply in_map; exact Hc | apply str_in_iff; rewrite <- E; simpl; intuition].
    right. exists c. split; [symmetry; exact E | exact Hc].
Qed.

Lemma count_named_occ name cmds :
  count_named name cmds = count_occ string_dec (map cmd_name cmds) name.
Proof.
  unfold count_named. induction cmds as [|c cmds IH]; simpl.
  - reflexivity.
  - destruct (string_dec (cmd_name c) name) as [E|E].
    + apply String.eqb_eq in E. rewrite E. simpl. rewrite IH. reflexivity.
    + apply String.eqb_neq in E. rewrite E. exact IH.
Qed.

End Selection.

(** * The claims *)

(** C1. [is_valid] is false exactly when some returned issue has severity
    CRITICAL. *)
Theorem validate_invalid_iff_critical (q : string) :
  fst (validate q) = false <->
  exists d, In d (snd (validate q)) /\ severity d = CRITICAL.
Proof.
  unfold validate. set (self := run q). cbn [fst snd].
  rewrite negb_false_iff, existsb_exists. split.
  - intros (d & Hd & E). exists d. split; [exact Hd|].
    destruct (severity d); [reflexivity | discriminate | discriminate].
  - intros (d & Hd & E). exists d. split; [exact Hd|]. rewrite E. reflexivity.
Qed.

(** C2. The six-line scenario query is valid, and none of its issues is
    CRITICAL. *)
Theorem scenario_is_valid :
  fst (validate scenario_query) = true
  /\ criticals (snd (validate scenario_query)) = [].
Proof. vm_compute. split; reflexivity. Qed.

(** C3. When the command sequence has no TAGLOAD, FLEX-LOAD, ADDROW, APPEND
    or SUB entry, the issues hold exactly one missing-data-loader issue, and
    it is CRITICAL at line 1; when it has such an entry, they hold none. *)
Theorem missing_loader_rule (q : string) :
  ((forall c, In c (commands (run q)) ->
              ~ In (cmd_name c) ["TAGLOAD"; "FLEX-LOAD"; "ADDROW"; "APPEND"; "SUB"]) ->
   filter is_missing_loader (snd (validate q))
   = [ {| severity := CRITICAL;
          line := 1;
          message :=
            "Missing data loader command (TAGLOAD, FLEX-LOAD, ADDROW, or APPEND)";
          suggestion := Some "Add TAGLOAD after CATEGORY command" |} ])
  /\ ((exists c, In c (commands (run q))
                 /\ In (cmd_name c)
                       ["TAGLOAD"; "FLEX-LOAD"; "ADDROW"; "APPEND"; "SUB"]) ->
      filter is_missing_loader (snd (validate q)) = []).
Proof.
  rewrite run_commands.
  assert (E : filter is_missing_loader (snd (validate q))
              = filter is_missing_loader (output_of Required (parsed q))).
  { apply filter_by_origin; try discriminate.
    intros k d Hd. destruct Hd; try reflexivity; discriminate. }
  rewrite E. cbn [output_of]. rewrite (proj2 check_required_commands_spec).
  split; intros H.
  - destruct (has_source (commands (parsed q))) eqn:S; [|reflexivity].
    apply has_source_iff in S. destruct S as (c & Hc & Hn).
    exfalso. exact (H c Hc Hn).
  - apply has_source_iff in H. rewrite H. reflexivity.
Qed.

Lemma missing_loader_rule_witness :
  filter is_missing_loader (snd (validate "SELECT [a]")) = [missing_loader_issue]
  /\ filter is_missing_loader (snd (validate "TAGLOAD")) = [].
Proof.
  split.
  - apply (proj1 (missing_loader_rule "SELECT [a]")).
    vm_compute. intros c [<-|[]]. intuition discriminate.
  - apply (proj2 (missing_loader_rule "TAGLOAD")).
    exists (1, "TAGLOAD", "TAGLOAD")%string. vm_compute. intuition.
Defined.

(** C4. When the numbers of SUB and END entries differ, the issues hold
    exactly one SUB/END issue: CRITICAL, at line 1, with both counts in its
    message (so two SUB and one END give "2 SUB commands, 1 END commands");
    when the numbers agree they hold none, wherever the entries stand. *)
Theorem sub_end_rule (q : string) :
  let names := map cmd_name (commands (run q)) in
  let subs := count_occ string_dec names "SUB" in
  let ends := count_occ string_dec names "END" in
  (subs <> ends ->
   filter is_sub_end (snd (validate q))
   = [ {| severity := CRITICAL;
          line := 1;
          message := ("Mismatched SUB/END: " ++ str_of_int subs
                      ++ " SUB commands, " ++ str_of_int ends
                      ++ " END commands")%string;
          suggestion := Some "Ensure each SUB has a matching END" |} ])
  /\ (subs = 2 -> ends = 1 ->
      map message (filter is_sub_end (snd (validate q)))
      = ["Mismatched SUB/END: 2 SUB commands, 1 END commands"])
  /\ (subs = ends -> filter is_sub_end (snd (validate q)) = []).
Proof.
  intros names subs ends.
  assert (E : filter is_sub_end (snd (validate q))
              = filter is_sub_end (output_of SubEnd (parsed q))).
  { apply filter_by_origin; try discriminate.
    intros k d Hd. destruct Hd; try reflexivity; discriminate. }
  rewrite E. cbn [output_of]. rewrite (proj2 check_sub_end_pairing_spec).
  cbv zeta. rewrite !count_named_occ, <- run_commands.
  fold names. fold subs. fold ends.
  assert (D : subs <> ends ->
              filter is_sub_end
                (if Nat.eqb subs ends then [] else [sub_end_issue subs ends])
              = [sub_end_issue subs ends]).
  { intros H. apply Nat.eqb_neq in H. rewrite H. reflexivity. }
  split; [exact D|]. split.
  - intros H2 H1. rewrite D by (rewrite H2, H1; discriminate).
    rewrite H2, H1. reflexivity.
  - intros H. apply Nat.eqb_eq in H. rewrite H. reflexivity.
Qed.

Lemma sub_end_rule_witness :
  map message (filter is_sub_end (snd (validate two_subs_one_end)))
  = ["Mismatched SUB/END: 2 SUB commands, 1 END commands"]
  /\ filter is_sub_end (snd (validate (join (str1 nl) ["END"; "SUB {a}"]%string)))
     = []
  /\ length (filter is_sub_end (snd (validate "SUB {a}"))) = 1.
Proof.
  split; [|split].
  - apply (proj1 (proj2 (sub_end_rule two_subs_one_end))); vm_compute; reflexivity.
  - apply (proj2 (proj2 (sub_end_rule _))). vm_compute. reflexivity.
  - rewrite (proj1 (sub_end_rule "SUB {a}")).
    + reflexivity.
    + vm_compute. discriminate.
Defined.

(** ** The command sequence has one entry per line at most *)

Section CommandLines.

Lemma parse_line_commands self entry :
  commands (parse_line self entry) = commands self
  \/ exists name text,
       commands (parse_line self entry)
       = commands self ++ [(fst entry, name, text)].
Proof.
  unfold parse_line.
  destruct (_ || _); [left; reflexivity|].
  destruct (startswith _ _); [left; reflexivity|].
  destruct (identify _) as [name|]; [|left; reflexivity].
  right. exists name, (strip (snd entry)). reflexivity.
Qed.

Lemma parse_fold_lines l : forall start self,
  NoDup (map cmd_line (commands self)) ->
  Forall (fun n => n < start) (map cmd_line (commands self)) ->
  NoDup (map cmd_line
           (commands (fold_left parse_line (combine (seq start (length l)) l) self))).
Proof.
  induction l as [|raw l IH]; intros start self ND B; simpl.
  - exact ND.
  - apply IH.
    + destruct (parse_line_commands self (start, raw)) as [-> | (name & text & ->)].
      * exact ND.
      * rewrite map_app. simpl. unfold cmd_line at 2. simpl.
        apply NoDup_app; [exact ND | repeat constructor; simpl; tauto |].
        intros n Hn [E | []]. rewrite Forall_forall in B.
        specialize (B n Hn). simpl in B. lia.
    + destruct (parse_line_commands self (start, raw)) as [-> | (name & text & ->)].
      * eapply Forall_impl; [|exact B]. simpl. intros; lia.
      * rewrite map_app. apply Forall_app. split.
        -- eapply Forall_impl; [|exact B]. simpl. intros; lia.
        -- constructor; [unfold cmd_line; simpl; lia | constructor].
Qed.

Lemma parsed_command_lines q : NoDup (map cmd_line (commands (parsed q))).
Proof.
  unfold parsed, _parse_commands, enumerate.
  apply parse_fold_lines; simpl; constructor.
Qed.

(** In a list without two elements of the same key, an element is found at
    one place only. *)
Lemma split_unique (A K : Type) (f : A -> K) (pre : list A) :
  forall pre' e x post post',
    NoDup (map f (pre ++ e :: post)) ->
    pre ++ e :: post = pre' ++ x :: post' ->
    f x = f e ->
    pre = pre' /\ e = x.
Proof.
  induction pre as [|a pre IH]; intros pre' e x post post' ND E Hf.
  - destruct pre' as [|a' pre']; simpl in *.
    + injection E as -> _. split; reflexivity.
    + injection E as -> E. subst post. exfalso.
      inversion ND as [|? ? Hn _]. apply Hn. rewrite <- Hf.
      apply in_map, in_elt.
  - destruct pre' as [|a' pre']; simpl in *.
    + injection E as -> E. subst post'. exfalso.
      inversion ND as [|? ? Hn _]. apply Hn. rewrite Hf.
      apply in_map, in_elt.
    + injection E as -> E. inversion ND as [|? ? _ ND'].
      destruct (IH pre' e x post post' ND' E Hf) as [-> ->].
      split; reflexivity.
Qed.

Lemma names_so_far (l : list command) : forall acc,
  fold_left (fun prev cmd => prev ++ [cmd_name cmd]) l acc
  = acc ++ map cmd_name l.
Proof.
  induction l as [|c l IH]; intros acc; simpl.
  - rewrite app_nil_r. reflexivity.
  - rewrite IH, <- app_assoc. reflexivity.
Qed.

Lemma in_output k q d :
  In d (output_of k (parsed q)) -> In d (snd (validate q)).
Proof.
  rewrite validate_issues. unfold run_outputs, concat.
  rewrite !in_app_iff. destruct k; cbn [output_of]; tauto.
Qed.

End CommandLines.

(** C5, as amended.  For a TAGLOAD or FLEX-LOAD entry of the command
    sequence, a WARNING "Data loader before CATEGORY command" is raised at
    the entry's line exactly when no CATEGORY entry precedes it and no entry
    of the command sequence has a text that contains [$category]. *)
Theorem loader_order_rule (q : string) (pre : list command) (e : command)
    (post : list command) :
  commands (run q) = pre ++ e :: post ->
  In (cmd_name e) ["TAGLOAD"; "FLEX-LOAD"] ->
  ((exists d, In d (snd (validate q))
              /\ severity d = WARNING
              /\ line d = cmd_line e
              /\ message d = "Data loader before CATEGORY command")
   <->
   (~ In "CATEGORY" (map cmd_name pre)
    /\ forall c, In c (commands (run q)) ->
                 contains "$category" (cmd_text c) = false)).
Proof.
  rewrite run_commands. intros E He. split.
  - intros (d & Hd & _ & Hl & Hm).
    assert (Ho : In d (output_of Order (parsed q))).
    { assert (F : In d (filter is_loader_order (snd (validate q)))).
      { apply filter_In. split; [exact Hd|].
        unfold is_loader_order. rewrite Hm. reflexivity. }
      assert (S : filter is_loader_order (snd (validate q))
                  = filter is_loader_order (output_of Order (parsed q))).
      { apply filter_by_origin; [discriminate | discriminate |].
        intros k d' Hk. destruct Hk; try reflexivity; discriminate. }
      rewrite S in F. apply filter_In in F. apply F. }
    cbn [output_of] in Ho. rewrite (proj2 check_command_order_spec) in Ho.
    apply in_scan_out in Ho. destruct Ho as (pre' & x & post' & E' & Hin).
    rewrite names_so_far in Hin. cbn [app] in Hin. unfold order_out in Hin.
    destruct (str_in (cmd_name x) ["TAGLOAD"; "FLEX-LOAD"]);
      [|contradiction].
    destruct (str_in "CATEGORY" (map cmd_name pre')) eqn:C; [contradiction|].
    destruct (existsb _ (commands (parsed q))) eqn:X; [contradiction|].
    destruct Hin as [<- | []]. cbn [line loader_order_issue] in Hl.
    assert (ND := parsed_command_lines q). rewrite E in ND.
    rewrite E in E'.
    destruct (split_unique cmd_line pre pre' e x post post' ND E' Hl) as [-> _].
    split.
    + intros Hc. apply str_in_iff in Hc. congruence.
    + intros c Hc. destruct (contains "$category" (cmd_text c)) eqn:K;
        [|reflexivity].
      assert (T : existsb (fun c => contains "$category" (cmd_text c))
                    (commands (parsed q)) = true).
      { apply existsb_exists. exists c. split; [exact Hc | exact K]. }
      congruence.
  - intros (Hcat & Hno). exists (loader_order_issue (cmd_line e)).
    split; [|repeat split].
    apply (in_output Order). cbn [output_of].
    rewrite (proj2 check_command_order_spec). apply in_scan_out.
    exists pre, e, post. split; [exact E|].
    rewrite names_so_far. cbn [app]. unfold order_out.
    rewrite (proj2 (str_in_iff _ _) He).
    destruct (str_in "CATEGORY" (map cmd_name pre)) eqn:C.
    { apply str_in_iff in C. contradiction. }
    destruct (existsb _ (commands (parsed q))) eqn:X.
    { apply existsb_exists in X. destruct X as (c & Hc & K).
      rewrite (Hno c Hc) in K. discriminate. }
    left. reflexivity.
Qed.

Lemma loader_order_rule_witness :
  exists d, In d (snd (validate "TAGLOAD"))
            /\ severity d = WARNING
            /\ line d = 1
            /\ message d = "Data loader before CATEGORY command".
Proof.
  apply (proj2 (@loader_order_rule "TAGLOAD" [] (1, "TAGLOAD", "TAGLOAD")%string [] eq_refl
                  ltac:(left; reflexivity))).
  split.
  - simpl. tauto.
  - vm_compute. intros c [<- | []]. reflexivity.
Defined.

(** C5 as stated fails: the warning is raised at the TAGLOAD entry although
    a raw line of the input contains [$category]. *)
Lemma loader_order_counterexample :
  lines (run placeholder_query) = ["CATEGORY $category"; "TAGLOAD"]%string
  /\ commands (run placeholder_query) = [(2, "TAGLOAD", "TAGLOAD")%string]
  /\ ~ (In (loader_order_issue 2) (snd (validate placeholder_query))
        <-> (~ In "CATEGORY"%string (@nil string)
             /\ forall raw, In raw (lines (run placeholder_query)) ->
                            contains "$category" raw = false)).
Proof.
  split; [vm_compute; reflexivity|].
  split; [vm_compute; reflexivity|].
  intros [H _].
  assert (W : In (loader_order_issue 2) (snd (validate placeholder_query))).
  { vm_compute. tauto. }
  destruct (H W) as [_ K].
  specialize (K "CATEGORY $category"%string). 
  assert (F : contains "$category" "CATEGORY $category" = false).
  { apply K. vm_compute. tauto. }
  vm_compute in F. discriminate.
Qed.

(** C7 as stated fails: the line yields two CRITICAL issues, not one. *)
Lemma unclosed_select_counterexample :
  length (criticals (snd (validate "SELECT [a, b"))) <> 1.
Proof. vm_compute. discriminate. Qed.

(** C7, as amended.  The line [SELECT [a, b] yields exactly one "Unclosed
    bracket" issue, CRITICAL and naming the opening square bracket, followed
    by the CRITICAL missing-data-loader issue, since the unclosed line
    matches no command pattern; these two are all the issues. *)
Theorem unclosed_select_issues :
  validate "SELECT [a, b"
  = (false,
     [ {| severity := CRITICAL;
          line := 1;
          message := "Unclosed bracket '['";
          suggestion := Some "Add closing bracket ']'"%string |};
       {| severity := CRITICAL;
          line := 1;
          message :=
            "Missing data loader command (TAGLOAD, FLEX-LOAD, ADDROW, or APPEND)";
          suggestion := Some "Add TAGLOAD after CATEGORY command"%string |} ])
  /\ length (filter is_unclosed (snd (validate "SELECT [a, b"))) = 1.
Proof. vm_compute. split; reflexivity. Qed.

(** C10.  The empty query has no command entries and yields one issue, the
    CRITICAL missing-data-loader issue at line 1, so it is not valid. *)
Theorem empty_query_issues :
  validate ""
  = (false,
     [ {| severity := CRITICAL;
          line := 1;
          message :=
            "Missing data loader command (TAGLOAD, FLEX-LOAD, ADDROW, or APPEND)";
          suggestion := Some "Add TAGLOAD after CATEGORY command"%string |} ])
  /\ commands (run "") = []
  /\ emitted _check_syntax (parsed "") = [].
Proof. vm_compute. repeat split; reflexivity. Qed.

(** ** Stripping twice is stripping once *)

Section Strip.

Lemma rstrip_rstrip s : rstrip (rstrip s) = rstrip s.
Proof.
  induction s as [|c s IH]; simpl.
  - reflexivity.
  - destruct (rstrip s) as [|c' r] eqn:E.
    + destruct (isspace c) eqn:Sp; simpl.
      * reflexivity.
      * rewrite Sp. reflexivity.
    + change (rstrip (String c (String c' r)))
        with (match rstrip (String c' r) with
              | EmptyString => if isspace c then EmptyString else str1 c
              | String _ _ as t => String c t
              end).
      rewrite IH. reflexivity.
Qed.

Lemma lstrip_head s :
  lstrip s = EmptyString
  \/ exists c t, lstrip s = String c t /\ isspace c = false.
Proof.
  induction s as [|c s IH]; simpl.
  - left. reflexivity.
  - destruct (isspace c) eqn:Sp.
    + exact IH.
    + right. exists c, s. split; [reflexivity | exact Sp].
Qed.

Lemma rstrip_head c t :
  isspace c = false -> exists r, rstrip (String c t) = String c r.
Proof.
  intros Sp. simpl. destruct (rstrip t) as [|c' r].
  - rewrite Sp. exists EmptyString. reflexivity.
  - exists (String c' r). reflexivity.
Qed.

Lemma strip_strip s : strip (strip s) = strip s.
Proof.
  unfold strip. destruct (lstrip_head s) as [-> | (c & t & -> & Sp)].
  - reflexivity.
  - destruct (@rstrip_head c t Sp) as (r & E).
    assert (L : lstrip (rstrip (String c t)) = rstrip (String c t)).
    { rewrite E. simpl. rewrite Sp. reflexivity. }
    rewrite L. apply rstrip_rstrip.
Qed.

End Strip.

(** C9.  [validate] gives a query and its stripped text the same result, so
    line numbers count from the first line of the stripped text: the issue
    of a line that follows two blank lines of leading whitespace is reported
    at line 1. *)
Theorem validate_strip (q : string) :
  validate q = validate (strip q)
  /\ map line (snd (validate padded_query)) = [1; 1]
  /\ validate padded_query = validate "SELECT [a, b".
Proof.
  split; [|split].
  - unfold validate, run, reset. rewrite strip_strip. reflexivity.
  - vm_compute. reflexivity.
  - vm_compute. reflexivity.
Qed.

(** ** Balanced delimiters *)

Section Balance.

Lemma closing_not_open c : closing c = true -> pairs c = None.
Proof.
  unfold closing. rewrite !orb_true_iff, !Ascii.eqb_eq.
  intros [[-> | ->] | ->]; reflexivity.
Qed.

Lemma pairs_closing o c : pairs o = Some c -> closing c = true.
Proof.
  unfold pairs.
  destruct (Ascii.eqb o "["); [intros [= <-]; reflexivity|].
  destruct (Ascii.eqb o "{"); [intros [= <-]; reflexivity|].
  destruct (Ascii.eqb o "("); [intros [= <-]; reflexivity | discriminate].
Qed.

Lemma Dyck_head x w : Dyck (x :: w) -> exists c, pairs x = Some c.
Proof. intros H. inversion H; subst. eauto. Qed.

Lemma Dyck_not_closing x w : closing x = true -> ~ Dyck (x :: w).
Proof.
  intros Cl H. apply Dyck_head in H. destruct H as (c & P).
  rewrite (closing_not_open _ Cl) in P. discriminate.
Qed.

Lemma Pending_empty stack : Pending stack [] -> stack = [].
Proof.
  intros H. inversion H as [|o c st w1 w2 P D H' E1 E2]; [reflexivity|].
  destruct w1; discriminate.
Qed.

Lemma Pending_open o c stack w :
  pairs o = Some c -> (Pending stack (o :: w) <-> Pending (o :: stack) w).
Proof.
  intros P. split; intros H.
  - inversion H as [w0 D E1 E2 | o2 c2 st u1 u2 P2 D1 H2 E1 E2]; subst.
    + inversion D as [|o1 c1 w1 w2 P1 D1 D2]; subst.
      apply Pending_close_top; [exact P1 | exact D1 | constructor; exact D2].
    + destruct u1 as [|x u1]; simpl in E2.
      * injection E2 as -> ->.
        apply pairs_closing, closing_not_open in P2. congruence.
      * injection E2 as -> E3. subst w.
        inversion D1 as [|o1 c1 w1 w2 P1 D1' D2']; subst.
        rewrite <- app_assoc. simpl.
        apply Pending_close_top; [exact P1 | exact D1' |].
        apply Pending_close_top; assumption.
  - inversion H as [|o1 c1 st w1 w2 P1 D1 H2]; subst.
    inversion H2 as [w0 D2 | o2 c2 st' u1 u2 P2 D2 H3]; subst.
    + constructor. apply Dyck_wrap; assumption.
    + change (o :: w1 ++ c1 :: u1 ++ c2 :: u2)
        with (o :: w1 ++ (c1 :: u1) ++ c2 :: u2).
      rewrite app_assoc, app_comm_cons.
      apply Pending_close_top; [exact P2 | | exact H3].
      apply Dyck_wrap; assumption.
Qed.

Lemma Pending_close x stack w :
  closing x = true ->
  (Pending stack (x :: w) <->
   exists o stack', stack = o :: stack' /\ pairs o = Some x /\ Pending stack' w).
Proof.
  intros Cl. split.
  - intros H.
    inversion H as [w0 D | o c st u1 u2 P D1 H2 E1 E2]; subst.
    + exfalso. exact (Dyck_not_closing Cl D).
    + destruct u1 as [|y u1]; simpl in E2.
      * injection E2 as -> ->. exists o, st. repeat split; assumption.
      * injection E2 as -> E3. exfalso. exact (Dyck_not_closing Cl D1).
  - intros (o & st & -> & P & H).
    apply (@Pending_close_top o x st [] w P Dyck_nil H).
Qed.

(** The scan accepts a line exactly when the delimiters it reads as code
    close the stack and are balanced. *)
Lemma balance_from_pending text : forall n stack i e,
  Forall (fun o => pairs o <> None) stack ->
  (balance_from n stack i e text = []
   <-> Pending stack (delimiters (visible i e text))).
Proof.
  unfold balance_from.
  induction text as [|c text IH]; intros n stack i e Inv.
  - simpl. destruct stack as [|top stack].
    + simpl. split; [intros _; constructor; constructor | reflexivity].
    + inversion Inv as [|? ? Htop _]. subst.
      destruct (pairs top) eqn:P; [|congruence]. simpl.
      split; [discriminate|]. intros H. apply Pending_empty in H. discriminate.
  - cbn [balance_loop visible].
    destruct e; [apply IH; exact Inv|].
    destruct (Ascii.eqb c backslash); [apply IH; exact Inv|].
    destruct (Ascii.eqb c dq || Ascii.eqb c sq); [apply IH; exact Inv|].
    destruct i; [apply IH; exact Inv|].
    cbn [delimiters]. unfold is_delim.
    destruct (Re.is_some (pairs c)) eqn:O; cbn [orb].
    + destruct (pairs c) as [c'|] eqn:P; [|discriminate].
      rewrite (@Pending_open c c' stack (delimiters (visible false false text)) P).
      apply IH. constructor; [congruence | exact Inv].
    + destruct (closing c) eqn:Cl; [|apply IH; exact Inv].
      destruct stack as [|top stack].
      * simpl. split; [discriminate|]. intros H.
        apply (@Pending_close _ _ _ Cl) in H.
        destruct H as (o & st & E & _). discriminate.
      * inversion Inv as [|? ? Htop Inv']. subst.
        destruct (pairs top) as [expected|] eqn:P; [|congruence].
        destruct (Ascii.eqb c expected) eqn:Q; cbn [negb].
        -- apply Ascii.eqb_eq in Q. subst expected.
           rewrite (IH n stack false false Inv').
           rewrite (@Pending_close _ _ _ Cl). split.
           ++ intros H. exists top, stack. repeat split; assumption.
           ++ intros (o & st & [= <- <-] & _ & H). exact H.
        -- simpl. split; [discriminate|]. intros H.
           apply (@Pending_close _ _ _ Cl) in H.
           destruct H as (o & st & [= <- <-] & Po & _).
           rewrite P in Po. injection Po as ->.
           rewrite Ascii.eqb_refl in Q. discriminate.
Qed.

(** A line passes the balance check exactly when the delimiters read as
    code are balanced. *)
Lemma balance_issues_Dyck n text :
  balance_issues n text = [] <-> Dyck (delimiters (visible false false text)).
Proof.
  change (balance_issues n text) with (balance_from n [] false false text).
  rewrite balance_from_pending by constructor. split.
  - intros H. inversion H. assumption.
  - intros H. constructor. exact H.
Qed.


Lemma balance_from_line text : forall n stack i e,
  Forall (fun d => severity d = CRITICAL /\ line d = n)
         (balance_from n stack i e text).
Proof.
  unfold balance_from.
  induction text as [|c text IH]; intros n stack i e; simpl.
  - destruct stack as [|top stack]; simpl; [constructor|].
    destruct (pairs top); simpl; repeat constructor.
  - destruct e; [apply IH|].
    destruct (Ascii.eqb c backslash); [apply IH|].
    destruct (Ascii.eqb c dq || Ascii.eqb c sq); [apply IH|].
    destruct i; [apply IH|].
    destruct (Re.is_some (pairs c)); [apply IH|].
    destruct (closing c); [|apply IH].
    destruct stack as [|top stack]; [repeat constructor|].
    destruct (pairs top) as [expected|]; simpl; [|constructor].
    destruct (negb (Ascii.eqb c expected)); [repeat constructor | apply IH].
Qed.

End Balance.

Section SyntaxLines.



End SyntaxLines.

(** ** Quoted spans and the scan *)

Section QuotedSpans.




(** On a line with an apostrophe inside a double-quoted span the scan
    leaves the span at the apostrophe: the closing brace, which is outside
    every quoted span, is passed over, and the line gets a balance issue
    although its delimiters are balanced. *)
Lemma apostrophe_line_issue :
  mixed_quotes None false apostrophe_line = true
  /\ delimiters apostrophe_line = ["{"; "}"]%char
  /\ delimiters (shielded None false apostrophe_line) = []
  /\ balance_issues 1 apostrophe_line = [unclosed_issue 1 "{" "}"].
Proof. repeat split. Qed.

End QuotedSpans.







(** * Further properties *)

(** ** The command sequence *)

Section CommandSequence.

Lemma parse_line_entry self entry :
  parse_line self entry
  = {| issues := issues self;
       lines := lines self;
       commands := commands self ++ parse_entry entry |}.
Proof.
  unfold parse_line, parse_entry, parse_skipped.
  destruct (_ || startswith (strip (snd entry)) "--"); cbn [orb].
  - rewrite app_nil_r. destruct self; reflexivity.
  - destruct (startswith (strip (snd entry)) "/*").
    + rewrite app_nil_r. destruct self; reflexivity.
    + destruct (identify (strip (snd entry))).
      * reflexivity.
      * rewrite app_nil_r. destruct self; reflexivity.
Qed.

Lemma parse_fold_entries l : forall self,
  commands (fold_left parse_line l self)
  = commands self ++ flat_map parse_entry l.
Proof.
  induction l as [|x l IH]; intros self; simpl.
  - rewrite app_nil_r. reflexivity.
  - rewrite IH, parse_line_entry. simpl. rewrite <- app_assoc. reflexivity.
Qed.

Lemma parsed_commands q :
  commands (parsed q)
  = flat_map parse_entry (enumerate (split nl (strip q)) 1).
Proof.
  unfold parsed, _parse_commands. rewrite parse_fold_entries. reflexivity.
Qed.

Lemma in_enumerate_iff (A : Type) (l : list A) : forall start i x,
  In (i, x) (combine (seq start (length l)) l)
  <-> start <= i /\ nth_error l (i - start) = Some x.
Proof.
  induction l as [|y l IH]; intros start i x; simpl.
  - split; [tauto|]. intros [_ H]. destruct (i - start); discriminate.
  - rewrite IH. split.
    + intros [E | [L H]].
      * injection E as <- <-. split; [lia|].
        rewrite Nat.sub_diag. reflexivity.
      * split; [lia|]. replace (i - start) with (S (i - S start)) by lia.
        exact H.
    + intros [L H]. destruct (i - start) as [|k] eqn:K.
      * left. injection H as ->. f_equal. lia.
      * right. split; [lia|]. replace (i - S start) with k by lia. exact H.
Qed.

Lemma parse_entry_lines l : forall start,
  StronglySorted lt
    (map cmd_line (flat_map parse_entry (combine (seq start (length l)) l)))
  /\ Forall (fun n => start <= n)
       (map cmd_line (flat_map parse_entry (combine (seq start (length l)) l))).
Proof.
  induction l as [|raw l IH]; intros start; simpl.
  - split; constructor.
  - destruct (IH (S start)) as [S1 B1].
    assert (B2 : Forall (fun n => start < n)
                   (map cmd_line
                      (flat_map parse_entry (combine (seq (S start) (length l)) l)))).
    { eapply Forall_impl; [|exact B1]. intros n H. exact H. }
    unfold parse_entry at 1 3. cbn [fst snd].
    destruct (parse_skipped (strip raw)).
    { split; [exact S1|]. eapply Forall_impl; [|exact B1]. cbv beta. intros; lia. }
    destruct (identify (strip raw)) as [name|].
    2:{ split; [exact S1|]. eapply Forall_impl; [|exact B1]. cbv beta. intros; lia. }
    cbn [app map]. change (cmd_line (start, name, strip raw)) with start.
    split.
    + constructor; assumption.
    + constructor; [lia|]. eapply Forall_impl; [|exact B1]. cbv beta. intros; lia.
Qed.

End CommandSequence.

(** X1.  The command sequence holds an entry [(i, name, text)] exactly when
    line [i] of the stripped query exists, [text] is that line stripped, the
    line is neither blank nor a comment ([#], [//], [--], [/*]), and [name]
    is the first command whose pattern matches [text]. *)
Theorem command_entries (q : string) (i : nat) (name text : string) :
  In (i, name, text) (commands (run q)) <->
  exists raw,
    1 <= i
    /\ nth_error (split nl (strip q)) (i - 1) = Some raw
    /\ text = strip raw
    /\ parse_skipped text = false
    /\ identify text = Some name.
Proof.
  rewrite run_commands, parsed_commands, in_flat_map. split.
  - intros ([j raw] & Hin & He).
    apply in_enumerate_iff in Hin. destruct Hin as [Hj Hn].
    unfold parse_entry in He. cbn [fst snd] in He.
    destruct (parse_skipped (strip raw)) eqn:Sk; [contradiction|].
    destruct (identify (strip raw)) as [name'|] eqn:Id; [|contradiction].
    destruct He as [E | []]. injection E as -> -> <-.
    exists raw. repeat split; assumption.
  - intros (raw & Hi & Hn & -> & Sk & Id).
    exists (i, raw). split.
    + apply in_enumerate_iff. split; assumption.
    + unfold parse_entry. cbn [fst snd]. rewrite Sk, Id. left. reflexivity.
Qed.

(** X2.  The line numbers of the command sequence are strictly increasing:
    entries keep the order of the lines, and no line gives two entries. *)
Theorem command_lines_increasing (q : string) :
  StronglySorted lt (map cmd_line (commands (run q))).
Proof.
  rewrite run_commands, parsed_commands. apply parse_entry_lines.
Qed.

(** ** The ordering rules *)

Section Rules.

(** An issue recognised by a test [p] that only holds of the issues of
    check [k] is among the issues of a run exactly when [k] raised it. *)
Lemma in_by_message (p : ValidationIssue -> bool) (k : origin) q d :
  k <> Balance -> k <> Shape ->
  (forall k' d', raised_by k' d' -> p d' = true -> k' = k) ->
  p d = true ->
  (In d (snd (validate q)) <-> In d (output_of k (parsed q))).
Proof.
  intros NB NS Hp Hd. split; [|apply in_output].
  intros H.
  assert (F : In d (filter p (snd (validate q)))).
  { apply filter_In. split; assumption. }
  rewrite (@filter_by_origin p k q NB NS Hp) in F.
  apply filter_In in F. apply F.
Qed.

Lemma update_seen l : forall b,
  fold_left update_next l b
  = (b || str_in "GROUP" (map cmd_name l))%bool.
Proof.
  induction l as [|c l IH]; intros b; cbn [fold_left map].
  - unfold str_in. cbn [existsb]. rewrite orb_false_r. reflexivity.
  - rewrite IH. unfold update_next, str_in. cbn [existsb].
    rewrite (String.eqb_sym "GROUP" (cmd_name c)).
    destruct (String.eqb (cmd_name c) "GROUP"), b; reflexivity.
Qed.

Lemma find_first (A : Type) (p : A -> bool) pre e post :
  (forall x, In x pre -> p x = false) -> p e = true ->
  find p (pre ++ e :: post) = Some e.
Proof.
  intros Hpre He. induction pre as [|a pre IH]; simpl.
  - rewrite He. reflexivity.
  - rewrite (Hpre a (or_introl eq_refl)). apply IH.
    intros x Hx. apply Hpre. right. exact Hx.
Qed.

Lemma named_false name (l : list command) :
  ~ In name (map cmd_name l) ->
  forall x, In x l -> String.eqb (cmd_name x) name = false.
Proof.
  intros H x Hx. apply String.eqb_neq. intros E. apply H. rewrite <- E.
  apply in_map. exact Hx.
Qed.

Lemma existsb_named name (l : list command) :
  existsb (fun cmd => String.eqb (cmd_name cmd) name) l = true
  <-> In name (map cmd_name l).
Proof.
  rewrite existsb_exists, in_map_iff. split.
  - intros (x & Hx & E). apply String.eqb_eq in E. exists x. tauto.
  - intros (x & E & Hx). exists x. split; [exact Hx|].
    apply String.eqb_eq. exact E.
Qed.

Lemma placement_fold l : forall start fp gp sp,
  fold_left placement_step (combine (seq start (length l)) l) (fp, gp, sp)
  = (or_else fp (first_index "FILTER" l start),
     or_else gp (first_index "GROUP" l start),
     or_else sp (first_index "SELECT" l start)).
Proof.
  induction l as [|c l IH]; intros start fp gp sp.
  - simpl. destruct fp, gp, sp; reflexivity.
  - cbn [length seq combine fold_left first_index].
    unfold placement_step at 2. cbn [fst snd].
    destruct (String.eqb (cmd_name c) "FILTER") eqn:F.
    { apply String.eqb_eq in F. rewrite F. cbn [String.eqb Ascii.eqb Bool.eqb].
      rewrite IH. destruct fp; reflexivity. }
    destruct (String.eqb (cmd_name c) "GROUP") eqn:G.
    { apply String.eqb_eq in G. rewrite G. rewrite IH.
      destruct gp; reflexivity. }
    destruct (String.eqb (cmd_name c) "SELECT") eqn:S.
    { rewrite IH. destruct sp; reflexivity. }
    apply IH.
Qed.

Lemma first_index_none name l : forall start,
  ~ In name (map cmd_name l) -> first_index name l start = None.
Proof.
  induction l as [|c l IH]; intros start H; simpl; [reflexivity|].
  destruct (String.eqb (cmd_name c) name) eqn:E.
  - apply String.eqb_eq in E. exfalso. apply H. left. exact E.
  - apply IH. intros K. apply H. right. exact K.
Qed.

Lemma first_index_some name l : forall start,
  In name (map cmd_name l) ->
  exists g, first_index name l start = Some g /\ start <= g < start + length l.
Proof.
  induction l as [|c l IH]; intros start H; simpl in *; [contradiction|].
  destruct (String.eqb (cmd_name c) name) eqn:E.
  - exists start. split; [reflexivity | lia].
  - destruct H as [H|H]; [apply String.eqb_neq in E; contradiction|].
    destruct (IH (S start) H) as (g & -> & B). exists g. split; [reflexivity | lia].
Qed.

Lemma first_index_app name pre rest : forall start,
  first_index name (pre ++ rest) start
  = or_else (first_index name pre start)
            (first_index name rest (start + length pre)).
Proof.
  induction pre as [|c pre IH]; intros start; simpl.
  - rewrite Nat.add_0_r. reflexivity.
  - destruct (String.eqb (cmd_name c) name); [reflexivity|].
    rewrite IH. rewrite Nat.add_succ_comm. reflexivity.
Qed.

Lemma first_index_bound name l : forall start g,
  first_index name l start = Some g -> start <= g.
Proof.
  induction l as [|c l IH]; intros start g; simpl; [discriminate|].
  destruct (String.eqb (cmd_name c) name).
  - intros [= <-]. lia.
  - intros H. apply IH in H. lia.
Qed.

End Rules.

(** X3.  For an UPDATE entry of the command sequence, a CRITICAL "UPDATE
    command without preceding GROUP" issue is raised at the entry's line
    exactly when no GROUP entry stands before it. *)
Theorem update_rule (q : string) (pre : list command) (e : command)
    (post : list command) :
  commands (run q) = pre ++ e :: post ->
  cmd_name e = "UPDATE"%string ->
  ((exists d, In d (snd (validate q))
              /\ severity d = CRITICAL
              /\ line d = cmd_line e
              /\ message d = "UPDATE command without preceding GROUP"%string)
   <-> ~ In "GROUP"%string (map cmd_name pre)).
Proof.
  assert (U : forall k' d', raised_by k' d' -> is_update d' = true -> k' = Update).
  { intros k' d' Hk. destruct Hk; try reflexivity; discriminate. }
  assert (NB : Update <> Balance) by discriminate.
  assert (NS : Update <> Shape) by discriminate.
  rewrite run_commands. intros E He.
  split.
  - intros (d & Hd & _ & Hl & Hm).
    assert (P : is_update d = true).
    { unfold is_update. rewrite Hm. reflexivity. }
    apply (proj1 (@in_by_message is_update Update q d NB NS U P)) in Hd.
    cbn [output_of] in Hd.
    rewrite (proj2 check_update_requires_group_spec) in Hd.
    apply in_scan_out in Hd. destruct Hd as (pre' & x & post' & E' & Hin).
    unfold update_out in Hin.
    destruct (negb (String.eqb (cmd_name x) "GROUP")
              && String.eqb (cmd_name x) "UPDATE"
              && negb (fold_left update_next pre' false)) eqn:C;
      [|contradiction].
    destruct Hin as [<- | []]. cbn [line update_issue] in Hl.
    assert (ND := parsed_command_lines q). rewrite E in ND. rewrite E in E'.
    destruct (split_unique cmd_line pre pre' e x post post' ND E' Hl) as [-> _].
    rewrite !andb_true_iff, negb_true_iff, update_seen in C.
    destruct C as [_ C]. cbn [orb] in C.
    intros K. apply str_in_iff in K. rewrite K in C. discriminate.
  - intros Hno. exists (update_issue (cmd_line e)).
    split; [|repeat split].
    apply (in_output Update). cbn [output_of].
    rewrite (proj2 check_update_requires_group_spec). apply in_scan_out.
    exists pre, e, post. split; [exact E|].
    unfold update_out. rewrite He, update_seen. cbn [orb].
    destruct (str_in "GROUP" (map cmd_name pre)) eqn:C.
    { apply str_in_iff in C. contradiction. }
    left. reflexivity.
Qed.

Lemma update_rule_witness :
  exists d, In d (snd (validate update_query))
            /\ severity d = CRITICAL
            /\ line d = 2
            /\ message d = "UPDATE command without preceding GROUP"%string.
Proof.
  assert (E : commands (run update_query)
              = [(1, "TAGLOAD", "TAGLOAD")%string]
                ++ (2, "UPDATE", "UPDATE {avg: cpu}")%string
                :: [(3, "GROUP", "GROUP {pk: host}")%string;
                    (4, "UPDATE", "UPDATE {max: cpu}")%string])
    by (vm_compute; reflexivity).
  apply (proj2 (update_rule update_query _ _ _ E eq_refl)).
  simpl. intros [H | []]. discriminate.
Defined.

Section BestPractice.

Lemma limit_out self :
  emitted _check_limit_without_order self
  = if existsb (fun cmd => String.eqb (cmd_name cmd) "LIMIT") (commands self)
       && negb (existsb (fun cmd => String.eqb (cmd_name cmd) "ORDER")
                        (commands self))
    then match find (fun cmd => String.eqb (cmd_name cmd) "LIMIT")
                    (commands self) with
         | Some cmd => [limit_issue (cmd_line cmd)]
         | None => []
         end
    else [].
Proof.
  unfold emitted, _check_limit_without_order. simpl commands.
  destruct (_ && _); [|reflexivity].
  destruct (find _ (commands self)); reflexivity.
Qed.

Lemma placement_out self :
  emitted _check_filter_placement self
  = match first_index "FILTER" (commands self) 0,
          first_index "GROUP" (commands self) 0 with
    | Some f, Some g =>
        if Nat.ltb g f then
          match nth_error (commands self) f with
          | Some cmd => [filter_issue (cmd_line cmd)]
          | None => []
          end
        else []
    | _, _ => []
    end.
Proof.
  unfold emitted, _check_filter_placement, enumerate. simpl commands.
  rewrite placement_fold. cbn [or_else].
  destruct (first_index "FILTER" (commands self) 0) as [f|];
    destruct (first_index "GROUP" (commands self) 0) as [g|];
    try reflexivity.
  destruct (Nat.ltb g f); [|reflexivity].
  destruct (nth_error (commands self) f); reflexivity.
Qed.

Lemma filter_is_limit q :
  filter is_limit (snd (validate q))
  = filter is_limit (emitted _check_limit_without_order (parsed q)).
Proof.
  apply (@filter_by_origin is_limit Limit); try discriminate.
  intros k d Hk. destruct Hk; try reflexivity; discriminate.
Qed.

Lemma filter_is_placement q :
  filter is_placement (snd (validate q))
  = filter is_placement (emitted _check_filter_placement (parsed q)).
Proof.
  apply (@filter_by_origin is_placement Placement); try discriminate.
  intros k d Hk. destruct Hk; try reflexivity; discriminate.
Qed.

End BestPractice.

(** X4.  The LIMIT-without-ORDER hint is raised at most once: not at all
    when the command sequence has no LIMIT entry or has an ORDER entry
    anywhere, before or after the LIMIT; otherwise once, as an INFO at the
    line of the first LIMIT entry. *)
Theorem limit_rule (q : string) :
  let names := map cmd_name (commands (run q)) in
  (~ In "LIMIT"%string names -> filter is_limit (snd (validate q)) = [])
  /\ (In "ORDER"%string names -> filter is_limit (snd (validate q)) = [])
  /\ (forall pre e post,
        commands (run q) = pre ++ e :: post ->
        cmd_name e = "LIMIT"%string ->
        ~ In "LIMIT"%string (map cmd_name pre) ->
        ~ In "ORDER"%string names ->
        filter is_limit (snd (validate q))
        = [ {| severity := INFO;
               line := cmd_line e;
               message := "LIMIT without ORDER - results may be arbitrary";
               suggestion :=
                 Some "Add ORDER command before LIMIT for predictable Top-N results"%string |} ]).
Proof.
  intros names. unfold names. rewrite run_commands, filter_is_limit, limit_out.
  split; [|split].
  - intros H.
    destruct (existsb _ (commands (parsed q))) eqn:L; [|reflexivity].
    exfalso. apply H, existsb_named. exact L.
  - intros H. apply existsb_named in H. rewrite H, andb_false_r. reflexivity.
  - intros pre e post E He Hpre Hord.
    assert (L : existsb (fun cmd => String.eqb (cmd_name cmd) "LIMIT")
                  (commands (parsed q)) = true).
    { apply existsb_named. rewrite E, map_app. apply in_or_app. right.
      left. exact He. }
    assert (O : existsb (fun cmd => String.eqb (cmd_name cmd) "ORDER")
                  (commands (parsed q)) = false).
    { destruct (existsb (fun cmd => String.eqb (cmd_name cmd) "ORDER")
                  (commands (parsed q))) eqn:K; [|reflexivity].
      apply existsb_named in K. contradiction. }
    rewrite L, O. cbn [andb negb]. rewrite E.
    rewrite (@find_first _ _ pre e post).
    + reflexivity.
    + apply named_false. exact Hpre.
    + rewrite He. reflexivity.
Qed.

Lemma limit_rule_witness :
  map line (filter is_limit (snd (validate limit_query))) = [2]
  /\ filter is_limit (snd (validate "TAGLOAD")) = [].
Proof.
  assert (E : commands (run limit_query)
              = [(1, "TAGLOAD", "TAGLOAD")%string]
                ++ (2, "LIMIT", "LIMIT 5")%string
                :: [(3, "LIMIT", "LIMIT 9")%string])
    by (vm_compute; reflexivity).
  split.
  - rewrite (proj2 (proj2 (limit_rule limit_query)) _ _ _ E eq_refl).
    + reflexivity.
    + simpl. intros [H | []]. discriminate.
    + rewrite E. simpl. intros [H | [H | [H | []]]]; discriminate.
  - apply (proj1 (limit_rule "TAGLOAD")).
    vm_compute. intros [H | []]. discriminate.
Defined.

(** X5.  The FILTER-after-GROUP warning looks at the first FILTER entry
    only: it is raised, once and at that entry's line, exactly when a GROUP
    entry stands before the first FILTER entry; a later FILTER that follows
    a GROUP raises nothing, and without a FILTER entry there is no warning. *)
Theorem filter_placement_rule (q : string) :
  (~ In "FILTER"%string (map cmd_name (commands (run q))) ->
   filter is_placement (snd (validate q)) = [])
  /\ (forall pre e post,
        commands (run q) = pre ++ e :: post ->
        cmd_name e = "FILTER"%string ->
        ~ In "FILTER"%string (map cmd_name pre) ->
        (In "GROUP"%string (map cmd_name pre) ->
         filter is_placement (snd (validate q))
         = [ {| severity := WARNING;
                line := cmd_line e;
                message := "FILTER after GROUP - may impact performance";
                suggestion :=
                  Some "Move FILTER before GROUP for better performance"%string |} ])
        /\ (~ In "GROUP"%string (map cmd_name pre) ->
            filter is_placement (snd (validate q)) = [])).
Proof.
  rewrite run_commands, filter_is_placement, placement_out. split.
  - intros H. rewrite (@first_index_none _ _ 0 H). reflexivity.
  - intros pre e post E He Hpre. rewrite E.
    assert (F : first_index "FILTER" (pre ++ e :: post) 0 = Some (length pre)).
    { rewrite first_index_app, (@first_index_none _ _ 0 Hpre). cbn [or_else first_index].
      rewrite He. reflexivity. }
    rewrite F. split.
    + intros Hg. destruct (@first_index_some _ _ 0 Hg) as (g & G & B).
      rewrite first_index_app, G. cbn [or_else].
      assert (T : Nat.ltb g (length pre) = true) by (apply Nat.ltb_lt; lia).
      rewrite T, nth_error_app2, Nat.sub_diag by lia. reflexivity.
    + intros Hg. rewrite first_index_app, (@first_index_none _ _ 0 Hg).
      cbn [or_else first_index]. rewrite He. cbn [String.eqb Ascii.eqb Bool.eqb].
      destruct (first_index "GROUP" post (S (0 + length pre))) as [g|] eqn:G;
        [|reflexivity].
      apply first_index_bound in G.
      assert (T : Nat.ltb g (length pre) = false) by (apply Nat.ltb_ge; lia).
      rewrite T. reflexivity.
Qed.

Lemma filter_placement_rule_witness :
  map line (filter is_placement (snd (validate placement_query))) = [3]
  /\ filter is_placement (snd (validate "TAGLOAD")) = [].
Proof.
  assert (E : commands (run placement_query)
              = [(1, "TAGLOAD", "TAGLOAD")%string;
                 (2, "GROUP", "GROUP {pk: host}")%string]
                ++ (3, "FILTER", "FILTER {cpu: 1}")%string
                :: [(4, "FILTER", "FILTER {mem: 2}")%string])
    by (vm_compute; reflexivity).
  split.
  - rewrite (proj1 (proj2 (filter_placement_rule placement_query) _ _ _ E eq_refl
                      ltac:(simpl; intuition discriminate))).
    + reflexivity.
    + simpl. tauto.
  - apply (proj1 (filter_placement_rule "TAGLOAD")).
    vm_compute. intros [H | []]. discriminate.
Defined.

(** ** Issues and lines *)

Section IssueLines.

Lemma filter_syntax (p : ValidationIssue -> bool) q :
  (forall k d, raised_by k d -> p d = true -> k = Balance \/ k = Shape) ->
  filter p (snd (validate q)) = filter p (emitted _check_syntax (parsed q)).
Proof.
  intros H.
  assert (F : forall ks l,
             Forall (from ks) l -> ~ In Balance ks -> ~ In Shape ks ->
             filter p l = []).
  { intros ks l Hl NB NS. apply (filter_foreign p Hl).
    intros k d Hk Hd. destruct (p d) eqn:E; [|reflexivity].
    destruct (H k d Hd E) as [-> | ->]; contradiction. }
  rewrite validate_issues. unfold run_outputs, concat. rewrite !filter_app.
  rewrite (F _ _ (required_origin (parsed q))),
          (F _ _ (order_origin (parsed q))),
          (F _ _ (update_origin (parsed q))),
          (F _ _ (sub_end_origin (parsed q))),
          (F _ _ (group_origin (parsed q))),
          (F _ _ (placement_origin (parsed q))),
          (F _ _ (select_origin (parsed q))),
          (F _ _ (limit_origin (parsed q)));
    try (simpl; intuition discriminate).
  cbn [app]. rewrite app_nil_r. reflexivity.
Qed.

Lemma filter_none (A : Type) (p : A -> bool) l :
  (forall x, In x l -> p x = false) -> filter p l = [].
Proof.
  induction l as [|a l IH]; intros H; simpl; [reflexivity|].
  rewrite (H a (or_introl eq_refl)). apply IH.
  intros x Hx. apply H. right. exact Hx.
Qed.

Lemma balance_from_length text : forall n stack i e,
  length (balance_from n stack i e text) <= 1.
Proof.
  unfold balance_from.
  induction text as [|c text IH]; intros n stack i e; simpl.
  - destruct stack as [|top stack]; simpl; [lia|].
    destruct (pairs top); simpl; lia.
  - destruct e; [apply IH|].
    destruct (Ascii.eqb c backslash); [apply IH|].
    destruct (Ascii.eqb c dq || Ascii.eqb c sq); [apply IH|].
    destruct i; [apply IH|].
    destruct (Re.is_some (pairs c)); [apply IH|].
    destruct (closing c); [|apply IH].
    destruct stack as [|top stack]; [simpl; lia|].
    destruct (pairs top) as [expected|]; simpl; [|lia].
    destruct (negb (Ascii.eqb c expected)); [simpl; lia | apply IH].
Qed.

Lemma json_issues_line n text :
  Forall (fun d => severity d = INFO /\ line d = n) (json_issues n text)
  /\ length (json_issues n text) <= 1.
Proof.
  unfold json_issues, _check_json_structure.
  destruct (Re.re_search false "\{.*\}" text) as [[json_str caps]|];
    [|split; [constructor | simpl; lia]].
  destruct (Re.re_findall false "\{\s*(\w+)\s*:" json_str
            ++ Re.re_findall false ",\s*(\w+)\s*:" json_str);
    split; simpl; try lia; repeat constructor.
Qed.

Lemma is_balance_origin k d : raised_by k d -> is_balance d = true -> k = Balance.
Proof. intros Hk. destruct Hk; try reflexivity; discriminate. Qed.

Lemma balance_is_balance k d : raised_by k d -> k = Balance -> is_balance d = true.
Proof. intros Hk. destruct Hk; try reflexivity; discriminate. Qed.

(** The balance issues at line [n] among the syntax issues of the lines
    numbered from [start]. *)
Lemma balance_at_line (n : nat) l : forall start,
  length (filter (fun d => is_balance d && at_line n d)
            (flat_map syntax_line_out (combine (seq start (length l)) l)))
  <= (if Nat.leb start n then 1 else 0).
Proof.
  induction l as [|raw l IH]; intros start; cbn [length seq combine flat_map].
  - simpl. lia.
  - rewrite filter_app, length_app.
    specialize (IH (S start)).
    assert (B : forall d, In d (syntax_line_out (start, raw)) -> line d = start).
    { intros d. unfold syntax_line_out. cbn [fst snd].
      destruct (syntax_skipped (strip raw)); [intros []|].
      rewrite in_app_iff. intros [H | H].
      - assert (L := balance_from_line (strip raw) start [] false false).
        rewrite Forall_forall in L. apply (L d H).
      - destruct (has_char "{" (strip raw)); [|contradiction].
        assert (L := proj1 (json_issues_line start (strip raw))).
        rewrite Forall_forall in L. apply (L d H). }
    destruct (Nat.eqb start n) eqn:E.
    + apply Nat.eqb_eq in E. subst n.
      assert (T : Nat.leb (S start) start = false) by (apply Nat.leb_gt; lia).
      rewrite T in IH. rewrite Nat.leb_refl.
      assert (L : length (filter (fun d => is_balance d && at_line start d)
                            (syntax_line_out (start, raw))) <= 1).
      { unfold syntax_line_out. cbn [fst snd].
        destruct (syntax_skipped (strip raw)); [simpl; lia|].
        rewrite filter_app, length_app.
        assert (J : filter (fun d => is_balance d && at_line start d)
                      (if has_char "{" (strip raw)
                       then json_issues start (strip raw) else []) = []).
        { destruct (has_char "{" (strip raw)); [|reflexivity].
          apply (@filter_foreign _ [Shape]).
          - eapply Forall_impl; [|apply json_issues_origin].
            intros d. apply from_one.
          - intros k d [<- | []] Hd.
            destruct (is_balance d) eqn:K; [|reflexivity].
            apply (is_balance_origin Hd) in K. discriminate. }
        rewrite J. cbn [length]. rewrite Nat.add_0_r.
        etransitivity; [apply filter_length_le|].
        apply (balance_from_length (strip raw) start [] false false). }
      lia.
    + assert (Z : filter (fun d => is_balance d && at_line n d)
                    (syntax_line_out (start, raw)) = []).
      { apply filter_none. intros d Hd. unfold at_line.
        rewrite (B d Hd), E. apply andb_false_r. }
      rewrite Z. cbn [length].
      destruct (Nat.leb (S start) n) eqn:K1; destruct (Nat.leb start n) eqn:K2;
        try lia.
      apply Nat.leb_le in K1. apply Nat.leb_gt in K2. lia.
Qed.

Lemma split_nonempty sep s : 1 <= length (split sep s).
Proof.
  induction s as [|c s IH]; simpl; [lia|].
  destruct (Ascii.eqb c sep); simpl; [lia|].
  destruct (split sep s); simpl in *; lia.
Qed.

Lemma command_line_range q c :
  In c (commands (parsed q)) ->
  1 <= cmd_line c <= length (split nl (strip q)).
Proof.
  rewrite parsed_commands, in_flat_map. intros ([i raw] & Hin & Hc).
  apply in_enumerate_iff in Hin. destruct Hin as [Hi Hn].
  assert (L : i - 1 < length (split nl (strip q))).
  { apply nth_error_Some. rewrite Hn. discriminate. }
  unfold parse_entry in Hc. cbn [fst snd] in Hc.
  destruct (parse_skipped (strip raw)); [contradiction|].
  destruct (identify (strip raw)); [|contradiction].
  destruct Hc as [<- | []]. unfold cmd_line. cbn [fst]. lia.
Qed.

End IssueLines.

(** X6.  The balance scan of a line stops at the first error, so a line
    gets at most one balance issue however many brackets are wrong on it. *)
Theorem one_balance_issue_per_line (q : string) (n : nat) :
  length (filter (fun d => is_balance d && at_line n d) (snd (validate q))) <= 1.
Proof.
  rewrite filter_syntax.
  - rewrite (proj2 check_syntax_spec). unfold enumerate.
    etransitivity; [apply balance_at_line|].
    destruct (Nat.leb 1 n); lia.
  - intros k d Hk Hp. left. apply andb_true_iff in Hp.
    apply (is_balance_origin Hk). apply Hp.
Qed.

(** X7.  Every issue is anchored at a line of the stripped query: its line
    number lies between 1 and the number of lines. *)
Theorem issue_lines_in_range (q : string) (d : ValidationIssue) :
  In d (snd (validate q)) ->
  1 <= line d <= length (split nl (strip q)).
Proof.
  assert (N := split_nonempty nl (strip q)).
  assert (C := @command_line_range q).
  rewrite validate_issues. unfold run_outputs, concat.
  rewrite !in_app_iff.
  intros [H | [H | [H | [H | [H | [H | [H | [H | [H | []]]]]]]]]].
  - rewrite (proj2 check_syntax_spec), parsed_lines in H.
    apply in_flat_map in H. destruct H as ([i raw] & Hin & Hd).
    apply in_enumerate_iff in Hin. destruct Hin as [Hi Hn].
    assert (L : i - 1 < length (split nl (strip q))).
    { apply nth_error_Some. rewrite Hn. discriminate. }
    assert (E : line d = i).
    { unfold syntax_line_out in Hd. cbn [fst snd] in Hd.
      destruct (syntax_skipped (strip raw)); [contradiction|].
      apply in_app_iff in Hd. destruct Hd as [Hd | Hd].
      - assert (B := balance_from_line (strip raw) i [] false false).
        rewrite Forall_forall in B. apply (B d Hd).
      - destruct (has_char "{" (strip raw)); [|contradiction].
        assert (B := proj1 (json_issues_line i (strip raw))).
        rewrite Forall_forall in B. apply (B d Hd). }
    lia.
  - rewrite (proj2 check_required_commands_spec) in H.
    destruct (has_source _); [contradiction|].
    destruct H as [<- | []]. cbn [line missing_loader_issue]. lia.
  - rewrite (proj2 check_command_order_spec) in H. apply in_scan_out in H.
    destruct H as (pre & x & post & E & Hd).
    assert (Hx : In x (commands (parsed q))) by (rewrite E; apply in_elt).
    unfold order_out in Hd. destruct (_ && _); [|contradiction].
    destruct Hd as [<- | []]. apply (C x Hx).
  - rewrite (proj2 check_update_requires_group_spec) in H.
    apply in_scan_out in H. destruct H as (pre & x & post & E & Hd).
    assert (Hx : In x (commands (parsed q))) by (rewrite E; apply in_elt).
    unfold update_out in Hd. destruct (_ && _); [|contradiction].
    destruct Hd as [<- | []]. apply (C x Hx).
  - rewrite (proj2 check_sub_end_pairing_spec) in H. cbv zeta in H.
    destruct (Nat.eqb _ _); [contradiction|].
    destruct H as [<- | []]. cbn [line sub_end_issue]. lia.
  - rewrite (proj2 check_group_syntax_spec) in H. apply in_flat_map in H.
    destruct H as (x & Hx & Hd). unfold group_out in Hd.
    destruct (String.eqb _ _); [|contradiction].
    apply in_app_iff in Hd.
    destruct Hd as [Hd | Hd]; destruct (Re.is_some _);
      try contradiction; destruct Hd as [<- | []]; apply (C x Hx).
  - rewrite placement_out in H.
    destruct (first_index "FILTER" _ 0) as [f|]; [|contradiction].
    destruct (first_index "GROUP" _ 0) as [g|]; [|contradiction].
    destruct (Nat.ltb g f); [|contradiction].
    destruct (nth_error (commands (parsed q)) f) as [x|] eqn:Hx;
      [|contradiction].
    apply nth_error_In in Hx. destruct H as [<- | []]. apply (C x Hx).
  - rewrite (proj2 check_select_star_spec) in H. apply in_flat_map in H.
    destruct H as (x & Hx & Hd). unfold select_out in Hd.
    destruct (_ && _); [|contradiction].
    destruct Hd as [<- | []]. apply (C x Hx).
  - rewrite limit_out in H. destruct (_ && _); [|contradiction].
    destruct (find _ (commands (parsed q))) as [x|] eqn:Hx; [|contradiction].
    apply find_some in Hx. destruct H as [<- | []]. apply (C x (proj1 Hx)).
Qed.

Lemma issue_lines_in_range_witness :
  1 <= line (mismatched_issue 2 "]" ")")
    <= length (split nl (strip unbalanced_query)).
Proof.
  assert (H : In (mismatched_issue 2 "]" ")") (snd (validate unbalanced_query)))
    by (vm_compute; tauto).
  exact (@issue_lines_in_range unbalanced_query (mismatched_issue 2 "]" ")") H).
Defined.

(** ** When a query is valid *)

Section Validity.

Lemma nil_iff (A : Type) (l : list A) : l = [] <-> forall x, ~ In x l.
Proof.
  split.
  - intros -> x [].
  - intros H. destruct l as [|a l]; [reflexivity|].
    exfalso. apply (H a). left. reflexivity.
Qed.

Lemma valid_noncritical q :
  fst (validate q) = true <-> Forall noncritical (snd (validate q)).
Proof.
  unfold validate. set (self := run q). cbn [fst snd].
  rewrite negb_true_iff, Forall_forall. split.
  - intros H d Hd C.
    assert (T : existsb (fun issue => Severity_eqb (severity issue) CRITICAL)
                  (issues self) = true).
    { apply existsb_exists. exists d. split; [exact Hd|]. rewrite C. reflexivity. }
    congruence.
  - intros H.
    destruct (existsb _ (issues self)) eqn:E; [|reflexivity].
    apply existsb_exists in E. destruct E as (d & Hd & C).
    exfalso. apply (H d Hd). destruct (severity d); [reflexivity | discriminate..].
Qed.

Lemma critical_family k d :
  raised_by k d -> In k [Balance; Required; Update; SubEnd; Group] ->
  severity d = CRITICAL.
Proof.
  intros Hk Hin. destruct Hk; try reflexivity;
    exfalso; simpl in Hin; intuition discriminate.
Qed.

Lemma advisory_family k d :
  raised_by k d -> In k [Shape; Order; Placement; Select; Limit] ->
  noncritical d.
Proof.
  intros Hk Hin. destruct Hk; try (intros C; discriminate C);
    exfalso; simpl in Hin; intuition discriminate.
Qed.

Lemma critical_nil k l :
  In k [Balance; Required; Update; SubEnd; Group] ->
  Forall (from [k]) l ->
  (Forall noncritical l <-> l = []).
Proof.
  intros Hk Hl. split.
  - intros H. destruct l as [|d l]; [reflexivity|]. exfalso.
    inversion Hl as [|? ? (k' & [<- | []] & R) _]. inversion H as [|? ? N _].
    apply N. apply (critical_family R Hk).
  - intros ->. constructor.
Qed.

Lemma advisory_all k l :
  In k [Shape; Order; Placement; Select; Limit] ->
  Forall (from [k]) l -> Forall noncritical l.
Proof.
  intros Hk Hl. eapply Forall_impl; [|exact Hl].
  intros d (k' & [<- | []] & R). apply (advisory_family R Hk).
Qed.

(** Validity, check by check. *)
Lemma valid_outputs q :
  fst (validate q) = true <->
  Forall noncritical (emitted _check_syntax (parsed q))
  /\ emitted _check_required_commands (parsed q) = []
  /\ emitted _check_update_requires_group (parsed q) = []
  /\ emitted _check_sub_end_pairing (parsed q) = []
  /\ emitted _check_group_syntax (parsed q) = [].
Proof.
  rewrite valid_noncritical, validate_issues. unfold run_outputs, concat.
  rewrite !Forall_app.
  rewrite (@critical_nil Required _ ltac:(simpl; tauto) (required_origin (parsed q))).
  rewrite (@critical_nil Update _ ltac:(simpl; tauto) (update_origin (parsed q))).
  rewrite (@critical_nil SubEnd _ ltac:(simpl; tauto) (sub_end_origin (parsed q))).
  rewrite (@critical_nil Group _ ltac:(simpl; tauto) (group_origin (parsed q))).
  assert (O := @advisory_all Order _ ltac:(simpl; tauto) (order_origin (parsed q))).
  assert (P := @advisory_all Placement _ ltac:(simpl; tauto)
                 (placement_origin (parsed q))).
  assert (S := @advisory_all Select _ ltac:(simpl; tauto) (select_origin (parsed q))).
  assert (L := @advisory_all Limit _ ltac:(simpl; tauto) (limit_origin (parsed q))).
  assert (N : Forall noncritical (@nil ValidationIssue)) by constructor.
  tauto.
Qed.

Lemma syntax_noncritical q :
  Forall noncritical (emitted _check_syntax (parsed q)) <->
  forall n raw,
    nth_error (split nl (strip q)) n = Some raw ->
    syntax_skipped (strip raw) = false ->
    Dyck (delimiters (visible false false (strip raw))).
Proof.
  rewrite (proj2 check_syntax_spec), parsed_lines, Forall_forall. split.
  - intros H n raw Hn Hs.
    apply (balance_issues_Dyck (S n)).
    destruct (balance_issues (S n) (strip raw)) as [|d rest] eqn:E;
      [reflexivity|].
    exfalso.
    assert (C : severity d = CRITICAL).
    { assert (L := balance_from_line (strip raw) (S n) [] false false).
      change (balance_from (S n) [] false false (strip raw))
        with (balance_issues (S n) (strip raw)) in L.
      rewrite E in L. inversion L as [|? ? [C _] _]. exact C. }
    apply (H d); [|exact C].
    apply in_flat_map. exists (S n, raw). split.
    + apply in_enumerate_iff. split; [lia|].
      replace (S n - 1) with n by lia. exact Hn.
    + unfold syntax_line_out. cbn [fst snd]. rewrite Hs, E. left. reflexivity.
  - intros H d Hd. apply in_flat_map in Hd.
    destruct Hd as ([i raw] & Hin & Hd).
    apply in_enumerate_iff in Hin. destruct Hin as [Hi Hn].
    unfold syntax_line_out in Hd. cbn [fst snd] in Hd.
    destruct (syntax_skipped (strip raw)) eqn:Hs; [contradiction|].
    assert (B : balance_issues i (strip raw) = []).
    { apply balance_issues_Dyck. apply (H (i - 1) raw Hn Hs). }
    rewrite B in Hd. cbn [app] in Hd.
    destruct (has_char "{" (strip raw)); [|contradiction].
    assert (J := proj1 (json_issues_line i (strip raw))).
    rewrite Forall_forall in J. destruct (J d Hd) as [Sv _].
    intros C. rewrite Sv in C. discriminate.
Qed.

Lemma update_clean (cmds : list command) :
  scan_out update_out update_next false cmds = [] <->
  forall pre e post,
    cmds = pre ++ e :: post -> cmd_name e = "UPDATE"%string ->
    In "GROUP"%string (map cmd_name pre).
Proof.
  rewrite nil_iff. split.
  - intros H pre e post E He.
    destruct (in_dec string_dec "GROUP"%string (map cmd_name pre)) as [G|G];
      [exact G|].
    exfalso. apply (H (update_issue (cmd_line e))). apply in_scan_out.
    exists pre, e, post. split; [exact E|].
    unfold update_out. rewrite He, update_seen. cbn [orb].
    destruct (str_in "GROUP" (map cmd_name pre)) eqn:C.
    { apply str_in_iff in C. contradiction. }
    left. reflexivity.
  - intros H d Hd. apply in_scan_out in Hd.
    destruct Hd as (pre & x & post & E & Hin).
    unfold update_out in Hin.
    destruct (negb (String.eqb (cmd_name x) "GROUP")
              && String.eqb (cmd_name x) "UPDATE"
              && negb (fold_left update_next pre false)) eqn:C;
      [|contradiction].
    rewrite !andb_true_iff, negb_true_iff, update_seen in C.
    destruct C as [[_ U] C]. cbn [orb] in C.
    apply String.eqb_eq in U. apply (H pre x post E) in U.
    apply str_in_iff in U. rewrite U in C. discriminate.
Qed.

Lemma group_clean (cmds : list command) :
  flat_map group_out cmds = [] <->
  forall e, In e cmds -> cmd_name e = "GROUP"%string ->
            Re.re_search false "\bkey\s*:" (cmd_text e) = None
            /\ Re.re_search false "\bvalue\s*:" (cmd_text e) = None.
Proof.
  rewrite nil_iff. split.
  - intros H e He Hn.
    assert (K : forall d, ~ In d (group_out e)).
    { intros d Hd. apply (H d). apply in_flat_map. exists e. tauto. }
    unfold group_out in K. rewrite Hn in K. cbn [String.eqb Ascii.eqb Bool.eqb] in K.
    destruct (Re.re_search false "\bkey\s*:" (cmd_text e)) as [r1|].
    { exfalso. apply (K (group_key_issue (cmd_line e))). left. reflexivity. }
    destruct (Re.re_search false "\bvalue\s*:" (cmd_text e)) as [r2|].
    { exfalso. apply (K (group_value_issue (cmd_line e))). left. reflexivity. }
    split; reflexivity.
  - intros H d Hd. apply in_flat_map in Hd. destruct Hd as (e & He & Hd).
    unfold group_out in Hd.
    destruct (String.eqb (cmd_name e) "GROUP") eqn:G; [|contradiction].
    apply String.eqb_eq in G. destruct (H e He G) as [K1 K2].
    rewrite K1, K2 in Hd. exact Hd.
Qed.

End Validity.

(** X8.  A query is valid exactly when: on every line that the syntax
    check reads, the delimiters that the balance scan reads as code are
    balanced; the command sequence has a TAGLOAD, FLEX-LOAD, ADDROW, APPEND
    or SUB entry; every UPDATE entry has a GROUP entry before it; there are
    as many SUB as END entries; and no GROUP entry has a [key:] or [value:]
    parameter.  The warnings and hints never make a query invalid.  What
    the scan reads as code is given by [visible]: it skips the character
    after a backslash and switches between code and string at every quote
    character of either kind, so its reading differs from the quoted spans
    of a line such as [apostrophe_line], which is balanced and yet makes a
    query invalid. *)
Theorem valid_iff (q : string) :
  fst (validate q) = true <->
  (forall n raw,
      nth_error (split nl (strip q)) n = Some raw ->
      syntax_skipped (strip raw) = false ->
      Dyck (delimiters (visible false false (strip raw))))
  /\ (exists c, In c (commands (run q))
                /\ In (cmd_name c)
                      ["TAGLOAD"; "FLEX-LOAD"; "ADDROW"; "APPEND"; "SUB"]%string)
  /\ (forall pre e post,
        commands (run q) = pre ++ e :: post ->
        cmd_name e = "UPDATE"%string ->
        In "GROUP"%string (map cmd_name pre))
  /\ count_occ string_dec (map cmd_name (commands (run q))) "SUB"%string
     = count_occ string_dec (map cmd_name (commands (run q))) "END"%string
  /\ (forall e, In e (commands (run q)) -> cmd_name e = "GROUP"%string ->
                Re.re_search false "\bkey\s*:" (cmd_text e) = None
                /\ Re.re_search false "\bvalue\s*:" (cmd_text e) = None).
Proof.
  rewrite run_commands, valid_outputs, syntax_noncritical.
  rewrite (proj2 check_required_commands_spec).
  rewrite (proj2 check_update_requires_group_spec), update_clean.
  rewrite (proj2 check_sub_end_pairing_spec). cbv zeta.
  rewrite (proj2 check_group_syntax_spec), group_clean.
  rewrite <- has_source_iff, <- !count_named_occ.
  assert (R : (if has_source (commands (parsed q)) then []
               else [missing_loader_issue]) = []
              <-> has_source (commands (parsed q)) = true).
  { destruct (has_source _); split; try reflexivity; discriminate. }
  assert (S : (if Nat.eqb (count_named "SUB" (commands (parsed q)))
                          (count_named "END" (commands (parsed q)))
               then []
               else [sub_end_issue (count_named "SUB" (commands (parsed q)))
                                   (count_named "END" (commands (parsed q)))])
              = []
              <-> count_named "SUB" (commands (parsed q))
                  = count_named "END" (commands (parsed q))).
  { destruct (Nat.eqb _ _) eqn:E.
    - apply Nat.eqb_eq in E. tauto.
    - apply Nat.eqb_neq in E. split; [discriminate | contradiction]. }
  rewrite R, S. reflexivity.
Qed.

(** ** The checks do not depend on each other *)

Section Independence.

Lemma appends_then f g :
  appends f -> appends g ->
  appends (fun s => g (f s))
  /\ forall self,
       emitted (fun s => g (f s)) self = emitted f self ++ emitted g self.
Proof.
  intros Hf Hg. apply appends_intro. intros self pre.
  rewrite Hf, Hg, <- app_assoc. reflexivity.
Qed.

Lemma check_semantics_appends : appends _check_semantics.
Proof.
  unfold _check_semantics.
  apply (appends_then
           (f := fun s => _check_sub_end_pairing
                            (_check_update_requires_group
                               (_check_command_order
                                  (_check_required_commands s))))
           (g := _check_group_syntax));
    [|apply check_group_syntax_spec].
  apply (appends_then
           (f := fun s => _check_update_requires_group
                            (_check_command_order (_check_required_commands s)))
           (g := _check_sub_end_pairing));
    [|apply check_sub_end_pairing_spec].
  apply (appends_then
           (f := fun s => _check_command_order (_check_required_commands s))
           (g := _check_update_requires_group));
    [|apply check_update_requires_group_spec].
  apply (appends_then (f := _check_required_commands) (g := _check_command_order));
    [apply check_required_commands_spec | apply check_command_order_spec].
Qed.

Lemma check_best_practices_appends : appends _check_best_practices.
Proof.
  unfold _check_best_practices.
  apply (appends_then
           (f := fun s => _check_select_star (_check_filter_placement s))
           (g := _check_limit_without_order));
    [|apply check_limit_without_order_spec].
  apply (appends_then (f := _check_filter_placement) (g := _check_select_star));
    [apply check_filter_placement_spec | apply check_select_star_spec].
Qed.

Lemma appends_swap f g self :
  appends f -> appends g ->
  Permutation (issues (g (f self))) (issues (f (g self)))
  /\ lines (g (f self)) = lines (f (g self))
  /\ commands (g (f self)) = commands (f (g self)).
Proof.
  intros Hf Hg.
  rewrite (appends_apply self Hf), (appends_apply self Hg), Hf, Hg.
  cbn [issues lines commands with_issues].
  split; [|split; reflexivity].
  rewrite <- !app_assoc. apply Permutation_app_head, Permutation_app_comm.
Qed.

End Independence.

(** X9.  The three stages of a run only append to the issue list and read
    nothing but the lines and the command sequence, so running them in
    another order gives the same issues up to their order in the list. *)
Theorem stages_commute (self : MXQLValidator) :
  Permutation (issues (_check_semantics (_check_syntax self)))
              (issues (_check_syntax (_check_semantics self)))
  /\ Permutation (issues (_check_best_practices (_check_semantics self)))
                 (issues (_check_semantics (_check_best_practices self)))
  /\ Permutation (issues (_check_best_practices (_check_syntax self)))
                 (issues (_check_syntax (_check_best_practices self))).
Proof.
  split; [|split].
  - apply (appends_swap self (proj1 check_syntax_spec) check_semantics_appends).
  - apply (appends_swap self check_semantics_appends check_best_practices_appends).
  - apply (appends_swap self (proj1 check_syntax_spec) check_best_practices_appends).
Qed.

(** ** Classification *)

Section Classification.

Ltac every_char c :=
  destruct c as [b0 b1 b2 b3 b4 b5 b6 b7];
  destruct b0, b1, b2, b3, b4, b5, b6, b7; reflexivity.

Lemma isspace_lower c : isspace (lower c) = isspace c.
Proof. every_char c. Qed.

Lemma isword_lower c : isword (lower c) = isword c.
Proof. every_char c. Qed.

Lemma isdigit_lower c : isdigit (lower c) = isdigit c.
Proof. every_char c. Qed.

Lemma lower_lower c : lower (lower c) = lower c.
Proof. every_char c. Qed.

Lemma lower_nl c : Ascii.eqb (lower c) nl = Ascii.eqb c nl.
Proof. every_char c. Qed.

Lemma gap_tail_gap tail :
  gap_tail tail = true ->
  forall caps prev s,
    Re.match_here true tail caps prev s <> None -> gap s = true.
Proof.
  intros T caps prev s.
  destruct tail as [|n tail]; [discriminate|].
  destruct n as [k|k|k|k| | |]; try discriminate;
    destruct k; try discriminate.
  - destruct tail as [|n tail]; [discriminate|].
    destruct n; try discriminate.
    destruct tail as [|n' tail]; [|discriminate].
    destruct s as [|c s]; [reflexivity|].
    cbn [gap Re.match_here Re.greedy Re.accepts].
    destruct (isspace c) eqn:Sp; [reflexivity|].
    cbn [Re.at_end]. destruct s as [|c' s]; [|intros H; contradiction].
    destruct (Ascii.eqb c nl) eqn:N; [|intros H; contradiction].
    apply Ascii.eqb_eq in N. subst c. discriminate Sp.
  - destruct s as [|c s]; [reflexivity|].
    cbn [gap Re.match_here Re.greedy Re.accepts].
    destruct (isspace c); [reflexivity|].
    cbn [String.eqb]. intros H. contradiction.
Qed.

Lemma match_lits kw tail :
  (forall caps prev s,
      Re.match_here true tail caps prev s <> None -> gap s = true) ->
  forall caps prev s,
    Re.match_here true (lits kw ++ tail) caps prev s <> None ->
    starts_keyword kw s = true.
Proof.
  intros T. induction kw as [|k kw IH]; intros caps prev s; cbn [lits app].
  - apply T.
  - cbn [Re.match_here starts_keyword Re.accepts].
    destruct s as [|c s]; [intros H; contradiction|].
    destruct (Ascii.eqb (lower c) (lower k)); [|intros H; contradiction].
    cbn [andb]. apply IH.
Qed.

Lemma commands_shape :
  Forall (fun item =>
            exists tail,
              Re.compile (snd item) = Re.Bol :: lits (fst item) ++ tail
              /\ gap_tail tail = true)
         COMMANDS.
Proof.
  unfold COMMANDS.
  repeat (apply Forall_cons;
          [eexists; split; [cbv; reflexivity | reflexivity]|]).
  apply Forall_nil.
Qed.

Lemma matches_keyword item text :
  In item COMMANDS -> matches item text = true ->
  starts_keyword (fst item) text = true.
Proof.
  intros Hin M.
  assert (S := commands_shape). rewrite Forall_forall in S.
  destruct (S item Hin) as (tail & C & T).
  unfold matches, Re.re_match, IGNORECASE in M. rewrite C in M.
  cbn [Re.match_here] in M.
  apply (@match_lits (fst item) tail (@gap_tail_gap tail T) [] None text).
  destruct (Re.match_here true (lits (fst item) ++ tail) [] None text);
    [discriminate | discriminate M].
Qed.

Lemma starts_keyword_unique k1 : forall k2 text,
  starts_keyword k1 text = true -> starts_keyword k2 text = true ->
  no_space k1 = true -> no_space k2 = true ->
  fold_case k1 = fold_case k2.
Proof.
  induction k1 as [|a k1 IH]; intros [|b k2] text; cbn [starts_keyword no_space fold_case].
  - reflexivity.
  - intros G H _ N. exfalso. destruct text as [|c text]; [discriminate|].
    apply andb_true_iff in H. destruct H as [H _]. apply Ascii.eqb_eq in H.
    apply andb_true_iff in N. destruct N as [N _].
    cbn [gap] in G. rewrite <- H, isspace_lower, G in N. discriminate.
  - intros H G N _. exfalso. destruct text as [|c text]; [discriminate|].
    apply andb_true_iff in H. destruct H as [H _]. apply Ascii.eqb_eq in H.
    apply andb_true_iff in N. destruct N as [N _].
    cbn [gap] in G. rewrite <- H, isspace_lower, G in N. discriminate.
  - destruct text as [|c text]; [discriminate|].
    rewrite !andb_true_iff, !Ascii.eqb_eq.
    intros [H1 S1] [H2 S2] [_ N1] [_ N2].
    rewrite <- H1, <- H2. f_equal. apply (IH k2 text); assumption.
Qed.

Lemma commands_keys :
  forallb (fun item => no_space (fst item)) COMMANDS = true
  /\ forallb (fun a =>
                forallb (fun b =>
                           implb (String.eqb (fold_case (fst a)) (fold_case (fst b)))
                                 (item_eqb a b))
                        COMMANDS)
             COMMANDS = true.
Proof. split; vm_compute; reflexivity. Qed.

Lemma exclusive text item1 item2 :
  In item1 COMMANDS -> In item2 COMMANDS ->
  matches item1 text = true -> matches item2 text = true ->
  item1 = item2.
Proof.
  intros I1 I2 M1 M2.
  destruct commands_keys as [N F].
  rewrite forallb_forall in N. rewrite forallb_forall in F.
  assert (E : fold_case (fst item1) = fold_case (fst item2)).
  { apply (@starts_keyword_unique (fst item1) (fst item2) text).
    - apply matches_keyword; assumption.
    - apply matches_keyword; assumption.
    - apply (N item1 I1).
    - apply (N item2 I2). }
  specialize (F item1 I1). rewrite forallb_forall in F.
  specialize (F item2 I2). rewrite E, String.eqb_refl in F. cbn [implb] in F.
  unfold item_eqb in F. apply andb_true_iff in F.
  destruct F as [F1 F2]. apply String.eqb_eq in F1, F2.
  destruct item1, item2. simpl in *. congruence.
Qed.

End Classification.

(** X10.  No line matches the patterns of two commands, so the order of the
    pattern table never decides a classification: a line is identified as a
    command exactly when it matches the pattern of that command. *)
Theorem patterns_exclusive (text : string) :
  (forall item1 item2,
      In item1 COMMANDS -> In item2 COMMANDS ->
      matches item1 text = true -> matches item2 text = true ->
      item1 = item2)
  /\ (forall name,
        identify text = Some name <->
        exists pattern,
          In (name, pattern) COMMANDS /\ matches (name, pattern) text = true).
Proof.
  split; [intros item1 item2; apply exclusive|].
  intros name. unfold identify. fold (matches). 
  change (fun item : string * string =>
            Re.is_some (Re.re_match IGNORECASE (snd item) text))
    with (fun item => matches item text).
  destruct (find (fun item => matches item text) COMMANDS) as [item|] eqn:F.
  - apply find_some in F. destruct F as [Hin M]. split.
    + intros [= <-]. exists (snd item). destruct item. split; assumption.
    + intros (pattern & Hin' & M').
      rewrite (@exclusive text item (name, pattern) Hin Hin' M M'). reflexivity.
  - split; [discriminate|]. intros (pattern & Hin & M).
    rewrite (find_none _ _ F _ Hin) in M. discriminate.
Qed.

Lemma patterns_exclusive_witness :
  identify "flex-load {a: 1}" = Some "FLEX-LOAD"%string.
Proof.
  apply (proj2 (proj2 (patterns_exclusive "flex-load {a: 1}") "FLEX-LOAD"%string)).
  exists "^FLEX-LOAD\s+\{.*\}"%string. split.
  - unfold COMMANDS. simpl. tauto.
  - vm_compute. reflexivity.
Defined.

Section CaseFolding.

Lemma accepts_lower k c : Re.accepts true k (lower c) = Re.accepts true k c.
Proof.
  destruct k; cbn [Re.accepts].
  - rewrite lower_lower. reflexivity.
  - apply isspace_lower.
  - apply isdigit_lower.
  - apply isword_lower.
  - rewrite lower_nl. reflexivity.
Qed.

Lemma fold_case_app a b : fold_case (a ++ b)%string = (fold_case a ++ fold_case b)%string.
Proof.
  induction a as [|c a IH]; cbn [fold_case String.append]; [reflexivity|].
  rewrite IH. reflexivity.
Qed.

Lemma fold_case_empty t : String.eqb (fold_case t) "" = String.eqb t "".
Proof. destruct t; reflexivity. Qed.

Lemma at_end_fold s : Re.at_end (fold_case s) = Re.at_end s.
Proof.
  destruct s as [|c [|c' s]]; cbn [fold_case Re.at_end]; try reflexivity.
  apply lower_nl.
Qed.

Lemma opt_word_fold s : Re.opt_word (Re.head (fold_case s)) = Re.opt_word (Re.head s).
Proof. destruct s; cbn; [reflexivity | apply isword_lower]. Qed.

Lemma opt_word_lower p : Re.opt_word (opt_lower p) = Re.opt_word p.
Proof. destruct p; cbn; [apply isword_lower | reflexivity]. Qed.

Lemma greedy_fold k cont cont' s : forall taken prev,
  (forall t pv r,
      Re.is_some (cont t pv r)
      = Re.is_some (cont' (fold_case t) (opt_lower pv) (fold_case r))) ->
  Re.is_some (Re.greedy true k cont taken prev s)
  = Re.is_some (Re.greedy true k cont' (fold_case taken) (opt_lower prev)
                  (fold_case s)).
Proof.
  induction s as [|c s IH]; intros taken prev H; cbn [Re.greedy fold_case].
  - apply (H taken prev EmptyString).
  - rewrite accepts_lower.
    destruct (Re.accepts true k c); [|apply (H taken prev (String c s))].
    specialize (IH (taken ++ str1 c)%string (Some c) H).
    rewrite fold_case_app in IH. cbn [fold_case str1 opt_lower] in IH.
    change (String (lower c) EmptyString) with (str1 (lower c)) in IH.
    destruct (Re.greedy true k cont (taken ++ str1 c) (Some c) s);
      destruct (Re.greedy true k cont' (fold_case taken ++ str1 (lower c))
                  (Some (lower c)) (fold_case s));
      cbn [Re.is_some] in IH; try discriminate IH; try reflexivity.
    apply (H taken prev (String c s)).
Qed.

Lemma match_fold p : forall caps caps' prev s,
  Re.is_some (Re.match_here true p caps prev s)
  = Re.is_some (Re.match_here true p caps' (opt_lower prev) (fold_case s)).
Proof.
  induction p as [|n p IH]; intros caps caps' prev s; [reflexivity|].
  destruct n as [k|k|k|k| | |]; cbn [Re.match_here].
  - destruct s as [|c s]; cbn [fold_case]; [reflexivity|].
    rewrite accepts_lower.
    destruct (Re.accepts true k c); [|reflexivity].
    apply (IH caps caps' (Some c) s).
  - apply (@greedy_fold k _ _ s EmptyString prev). intros t pv r. apply IH.
  - apply (@greedy_fold k _ _ s EmptyString prev). intros t pv r.
    rewrite fold_case_empty. destruct (String.eqb t ""); [reflexivity | apply IH].
  - apply (@greedy_fold k _ _ s EmptyString prev). intros t pv r.
    rewrite fold_case_empty. destruct (String.eqb t ""); [reflexivity | apply IH].
  - destruct prev; cbn [opt_lower]; [reflexivity|].
    apply (IH caps caps' None s).
  - rewrite at_end_fold. destruct (Re.at_end s); [apply IH | reflexivity].
  - rewrite opt_word_fold, opt_word_lower.
    destruct (xorb _ _); [apply IH | reflexivity].
Qed.

Lemma matches_fold item text : matches item (fold_case text) = matches item text.
Proof.
  unfold matches, Re.re_match, IGNORECASE.
  assert (H := match_fold (Re.compile (snd item)) [] [] None text).
  cbn [opt_lower] in H.
  destruct (Re.match_here true (Re.compile (snd item)) [] None text) as [[c r]|];
    destruct (Re.match_here true (Re.compile (snd item)) [] None (fold_case text))
      as [[c' r']|];
    cbn [Re.is_some] in *; try reflexivity; discriminate H.
Qed.

Lemma find_same (A : Type) (p p' : A -> bool) l :
  (forall x, p x = p' x) -> find p l = find p' l.
Proof.
  intros H. induction l as [|a l IH]; simpl; [reflexivity|].
  rewrite H, IH. reflexivity.
Qed.

Lemma identify_fold text : identify (fold_case text) = identify text.
Proof.
  unfold identify.
  rewrite (@find_same _
             (fun item => Re.is_some (Re.re_match IGNORECASE (snd item) (fold_case text)))
             (fun item => Re.is_some (Re.re_match IGNORECASE (snd item) text))).
  - reflexivity.
  - intros item. apply (matches_fold item text).
Qed.

End CaseFolding.

(** X11.  On text of the code points U+0000..U+00FF, classification
    ignores the case of letters: two such lines that are equal once every
    character is lower-cased, as [str.lower] does on that range, are
    identified as the same command, or both as none.  Nothing is said of
    text with other characters. *)
Theorem identify_ignores_case (text1 text2 : string) :
  fold_case text1 = fold_case text2 -> identify text1 = identify text2.
Proof.
  intros E. rewrite <- (identify_fold text1), <- (identify_fold text2), E.
  reflexivity.
Qed.

Lemma identify_ignores_case_witness :
  identify "Select [A, b]" = identify "sELECT [a, B]".
Proof. apply identify_ignores_case. reflexivity. Defined.

(** ** Which balance issue a line gets *)

Section Diagnosis.

Lemma is_delim_cases c :
  is_delim c = false -> pairs c = None /\ closing c = false.
Proof.
  unfold is_delim. destruct (pairs c); cbn [Re.is_some orb].
  - discriminate.
  - intros H. split; [reflexivity | exact H].
Qed.

Lemma balance_from_scan text : forall n stack i e,
  balance_from n stack i e text
  = scan_delimiters n stack (delimiters (visible i e text)).
Proof.
  unfold balance_from.
  induction text as [|c text IH]; intros n stack i e.
  - cbn [balance_loop visible delimiters scan_delimiters].
    destruct stack as [|top stack]; [reflexivity|].
    destruct (pairs top); reflexivity.
  - cbn [balance_loop visible].
    destruct e; [apply IH|].
    destruct (Ascii.eqb c backslash); [apply IH|].
    destruct (Ascii.eqb c dq || Ascii.eqb c sq); [apply IH|].
    destruct i; [apply IH|].
    cbn [delimiters]. unfold is_delim.
    destruct (pairs c) as [c'|] eqn:P; cbn [Re.is_some orb].
    + cbn [scan_delimiters]. rewrite P. apply IH.
    + destruct (closing c) eqn:Cl; [|apply IH].
      cbn [scan_delimiters]. rewrite P.
      destruct stack as [|top stack]; [reflexivity|].
      destruct (pairs top) as [expected|]; [|reflexivity].
      destruct (Ascii.eqb c expected); cbn [negb]; [apply IH | reflexivity].
Qed.

Lemma scan_Dyck n w : Dyck w -> forall stack rest,
  scan_delimiters n stack (w ++ rest) = scan_delimiters n stack rest.
Proof.
  intros D. induction D as [|o c w1 w2 P D1 IH1 D2 IH2]; intros stack rest.
  - reflexivity.
  - cbn [app scan_delimiters]. rewrite P, <- app_assoc, IH1.
    cbn [app scan_delimiters].
    rewrite (closing_not_open c (pairs_closing o P)), P, Ascii.eqb_refl.
    apply IH2.
Qed.

Lemma scan_Open n stack w : Open stack w -> forall rest,
  scan_delimiters n [] (w ++ rest) = scan_delimiters n stack rest.
Proof.
  intros O. induction O as [w D|o c stack w1 w2 P O IH D]; intros rest.
  - apply (scan_Dyck n D).
  - rewrite <- app_assoc, IH. cbn [app scan_delimiters]. rewrite P.
    apply (scan_Dyck n D).
Qed.

End Diagnosis.

(** X12.  The balance issue of a line is decided by its first error among
    the delimiters that the scan reads as code, which [visible] gives: the
    scan skips the character after a backslash and switches between code
    and string at every quote character of either kind.  If they nest properly and leave
    delimiters open, the issue is "Unclosed bracket" and names the innermost
    open one.  If a closing delimiter comes when nothing is open, the issue
    is "Unmatched closing bracket" for it.  If a closing delimiter comes
    while another kind is the innermost open one, the issue is "Mismatched
    brackets", expecting the closer of that one. *)
Theorem balance_diagnosis (n : nat) (text : string) :
  let w := delimiters (visible false false text) in
  (forall o c stack,
      Open (o :: stack) w -> pairs o = Some c ->
      balance_issues n text = [unclosed_issue n o c])
  /\ (forall w1 c rest,
        w = w1 ++ c :: rest -> Dyck w1 -> closing c = true ->
        balance_issues n text = [unmatched_issue n c])
  /\ (forall w1 c rest o expected stack,
        w = w1 ++ c :: rest -> Open (o :: stack) w1 ->
        pairs o = Some expected -> closing c = true -> c <> expected ->
        balance_issues n text = [mismatched_issue n expected c]).
Proof.
  intros w.
  change (balance_issues n text) with (balance_from n [] false false text).
  rewrite balance_from_scan. fold w. split; [|split].
  - intros o c stack O P.
    rewrite <- (app_nil_r w), (scan_Open n O). cbn [scan_delimiters].
    rewrite P. reflexivity.
  - intros w1 c rest -> D Cl.
    rewrite (scan_Dyck n D). cbn [scan_delimiters].
    rewrite (closing_not_open c Cl). reflexivity.
  - intros w1 c rest o expected stack -> O P Cl N.
    rewrite (scan_Open n O). cbn [scan_delimiters].
    rewrite (closing_not_open c Cl), P.
    destruct (Ascii.eqb c expected) eqn:E; [|reflexivity].
    apply Ascii.eqb_eq in E. contradiction.
Qed.

Lemma balance_diagnosis_witness :
  balance_issues 1 diagnosis_line_1 = [mismatched_issue 1 "}" "]"]
  /\ balance_issues 1 diagnosis_line_2 = [unmatched_issue 1 ")"]
  /\ balance_issues 1 diagnosis_line_3 = [mismatched_issue 1 ")" "}"]
  /\ balance_issues 1 "LIMIT (1 [2] {" = [unclosed_issue 1 "{" "}"].
Proof.
  assert (D0 : Dyck []) by constructor.
  assert (Dp : Dyck ["("; ")"]%char).
  { apply (@Dyck_wrap "(" ")" [] [] eq_refl D0 D0). }
  assert (Db : Dyck ["["; "]"]%char).
  { apply (@Dyck_wrap "[" "]" [] [] eq_refl D0 D0). }
  split; [|split; [|split]].
  - apply (proj2 (proj2 (balance_diagnosis 1 diagnosis_line_1))
             ["["; "{"; "("; ")"]%char "]"%char [] "{"%char "}"%char ["["%char]).
    + reflexivity.
    + apply (@Open_more "{" "}" ["["%char] ["["%char] ["("; ")"]%char eq_refl);
        [|exact Dp].
      apply (@Open_more "[" "]" [] [] [] eq_refl); [constructor|]; exact D0.
    + reflexivity.
    + reflexivity.
    + discriminate.
  - apply (proj1 (proj2 (balance_diagnosis 1 diagnosis_line_2))
             ["{"; "("; ")"; "}"]%char ")"%char ["["%char]).
    + reflexivity.
    + apply (@Dyck_wrap "{" "}" ["("; ")"]%char [] eq_refl Dp D0).
    + reflexivity.
  - apply (proj2 (proj2 (balance_diagnosis 1 diagnosis_line_3))
             ["{"; "["; "("]%char "}"%char [] "("%char ")"%char ["["; "{"]%char).
    + reflexivity.
    + apply (@Open_more "(" ")" ["["; "{"]%char ["{"; "["]%char [] eq_refl);
        [|exact D0].
      apply (@Open_more "[" "]" ["{"%char] ["{"%char] [] eq_refl); [|exact D0].
      apply (@Open_more "{" "}" [] [] [] eq_refl); [constructor|]; exact D0.
    + reflexivity.
    + reflexivity.
    + discriminate.
  - apply (proj1 (balance_diagnosis 1 "LIMIT (1 [2] {") "{"%char "}"%char ["("%char]).
    + apply (@Open_more "{" "}" ["("%char] ["("; "["; "]"]%char [] eq_refl);
        [|exact D0].
      apply (@Open_more "(" ")" [] [] ["["; "]"]%char eq_refl); [constructor|];
        [exact D0 | exact Db].
    + reflexivity.
Defined.

(** ** The GROUP parameters *)

Section Parameters.

Lemma search_from_some ic p s : forall prev,
  Re.search_from ic p prev s <> None <->
  exists a b, s = (a ++ b)%string
              /\ Re.match_here ic p [] (last_char prev a) b <> None.
Proof.
  induction s as [|c s IH]; intros prev; cbn [Re.search_from].
  - split.
    + intros H. exists EmptyString, EmptyString. split; [reflexivity|].
      cbn [last_char]. destruct (Re.match_here ic p [] prev "") as [[x y]|];
        [discriminate | contradiction].
    + intros (a & b & E & H). destruct a; [|discriminate].
      destruct b; [|discriminate]. cbn [last_char] in H.
      destruct (Re.match_here ic p [] prev "") as [[x y]|];
        [discriminate | contradiction].
  - destruct (Re.match_here ic p [] prev (String c s)) as [[x y]|] eqn:M.
    + split; [|discriminate]. intros _.
      exists EmptyString, (String c s). split; [reflexivity|].
      cbn [last_char]. rewrite M. discriminate.
    + rewrite IH. split.
      * intros (a & b & E & H). exists (String c a), b.
        split; [cbn; rewrite E; reflexivity | exact H].
      * intros (a & b & E & H). destruct a as [|c' a].
        -- cbn in E. subst b. cbn [last_char] in H. rewrite M in H. contradiction.
        -- cbn in E. injection E as <- E. exists a, b. split; assumption.
Qed.

Lemma match_lits_exact kw tail caps : forall prev s,
  Re.match_here false (lits kw ++ tail) caps prev s <> None <->
  exists rest, s = (kw ++ rest)%string
               /\ Re.match_here false tail caps (last_char prev kw) rest <> None.
Proof.
  induction kw as [|k kw IH]; intros prev s; cbn [lits app last_char].
  - split.
    + intros H. exists s. split; [reflexivity | exact H].
    + intros (rest & -> & H). exact H.
  - cbn [Re.match_here Re.accepts]. destruct s as [|c s].
    + split; [intros H; contradiction|]. intros (rest & E & _). discriminate.
    + destruct (Ascii.eqb c k) eqn:E.
      * apply Ascii.eqb_eq in E. subst c. rewrite IH. split.
        -- intros (rest & -> & H). exists rest. split; [reflexivity | exact H].
        -- intros (rest & E & H). cbn in E. injection E as ->.
           exists rest. split; [reflexivity | exact H].
      * split; [intros H; contradiction|]. intros (rest & R & _).
        cbn in R. injection R as -> _. rewrite Ascii.eqb_refl in E. discriminate.
Qed.

Lemma spaces_colon caps s : forall taken prev,
  Re.greedy false Re.Space
    (fun _ pv r => Re.match_here false [Re.One (Re.Lit ":")] caps pv r)
    taken prev s <> None <->
  exists sp b, s = (sp ++ ":" ++ b)%string /\ all_space sp = true.
Proof.
  induction s as [|c s IH]; intros taken prev; cbn [Re.greedy].
  - cbn [Re.match_here]. split; [intros H; contradiction|].
    intros (sp & b & E & _). destruct sp; discriminate.
  - cbn [Re.accepts]. destruct (isspace c) eqn:Sp.
    + assert (K : Re.match_here false [Re.One (Re.Lit ":")] caps prev (String c s)
                  = None).
      { cbn [Re.match_here Re.accepts].
        destruct (Ascii.eqb c ":") eqn:E; [|reflexivity].
        apply Ascii.eqb_eq in E. subst c. discriminate Sp. }
      rewrite K.
      assert (G : Re.greedy false Re.Space
                    (fun _ pv r => Re.match_here false [Re.One (Re.Lit ":")] caps pv r)
                    (taken ++ str1 c) (Some c) s <> None
                  <-> exists sp b, String c s = (sp ++ ":" ++ b)%string
                                   /\ all_space sp = true).
      { rewrite IH. split.
        - intros (sp & b & -> & A). exists (String c sp), b.
          split; [reflexivity|]. cbn [all_space]. rewrite Sp, A. reflexivity.
        - intros (sp & b & E & A). destruct sp as [|c' sp].
          + cbn in E. injection E as -> _. discriminate Sp.
          + cbn in E. injection E as <- ->. cbn [all_space] in A.
            apply andb_true_iff in A. exists sp, b. split; [reflexivity | tauto]. }
      rewrite <- G.
      destruct (Re.greedy false Re.Space _ (taken ++ str1 c) (Some c) s);
        split; intros H; try discriminate; exact H.
    + cbn [Re.match_here Re.accepts]. destruct (Ascii.eqb c ":") eqn:E.
      * apply Ascii.eqb_eq in E. subst c. split; [|discriminate]. intros _.
        exists EmptyString, s. split; reflexivity.
      * split; [intros H; contradiction|]. intros (sp & b & R & A).
        destruct sp as [|c' sp]; cbn in R; injection R as -> _.
        -- rewrite Ascii.eqb_refl in E. discriminate.
        -- cbn [all_space] in A. rewrite Sp in A. discriminate.
Qed.

(** What a search for [\bkw\s*:] finds, for a word [kw]. *)
Lemma parameter_search k kw text :
  isword k = true ->
  Re.search_from false
    (Re.Boundary :: lits (String k kw) ++ [Re.Many Re.Space; Re.One (Re.Lit ":")])
    None text <> None
  <-> has_parameter (String k kw) text.
Proof.
  intros W. rewrite search_from_some. unfold has_parameter. split.
  - intros (a & b & -> & H). cbn [Re.match_here] in H.
    destruct (xorb (Re.opt_word (last_char None a)) (Re.opt_word (Re.head b)))
      eqn:X; [|contradiction].
    apply match_lits_exact in H. destruct H as (rest & -> & H).
    cbn [Re.match_here] in H. apply spaces_colon in H.
    destruct H as (sp & b' & -> & A).
    exists a, sp, b'. split; [reflexivity|]. split; [exact A|].
    cbn [String.append Re.head Re.opt_word] in X. rewrite W in X.
    destruct (Re.opt_word (last_char None a)); [discriminate | reflexivity].
  - intros (a & sp & b & -> & A & B).
    exists a, (String k kw ++ sp ++ ":" ++ b)%string. split; [reflexivity|].
    cbn [Re.match_here String.append Re.head Re.opt_word]. rewrite B, W.
    cbn [xorb].
    apply (proj2 (match_lits_exact (String k kw) _ [] (last_char None a)
                    (String k (kw ++ sp ++ ":" ++ b)))).
    exists (sp ++ ":" ++ b)%string. split; [reflexivity|].
    cbn [Re.match_here]. apply spaces_colon. exists sp, b. split; [reflexivity | exact A].
Qed.

Lemma same_line (l : list command) x y :
  NoDup (map cmd_line l) -> In x l -> In y l -> cmd_line x = cmd_line y -> x = y.
Proof.
  induction l as [|a l IH]; intros ND Hx Hy E; [contradiction|].
  inversion ND as [|? ? Hn ND']. subst.
  destruct Hx as [-> | Hx], Hy as [-> | Hy].
  - reflexivity.
  - exfalso. apply Hn. rewrite E. apply in_map. exact Hy.
  - exfalso. apply Hn. rewrite <- E. apply in_map. exact Hx.
  - apply IH; assumption.
Qed.

Lemma search_key text :
  Re.re_search false "\bkey\s*:" text <> None <-> has_parameter "key" text.
Proof. apply (@parameter_search "k" "ey" text). reflexivity. Qed.

Lemma search_value text :
  Re.re_search false "\bvalue\s*:" text <> None <-> has_parameter "value" text.
Proof. apply (@parameter_search "v" "alue" text). reflexivity. Qed.

Lemma is_some_search (A : Type) (o : option A) : Re.is_some o = true <-> o <> None.
Proof. destruct o; cbn; split; try discriminate; try reflexivity; intros H; contradiction. Qed.

End Parameters.

(** X13.  A GROUP entry gets the CRITICAL "GROUP uses 'key' parameter" issue
    at its line exactly when its text holds the word [key], not preceded by
    a word character, followed by optional white space and a colon; and it
    gets the "GROUP uses 'value' parameter" issue exactly when its text
    holds [value] in the same way.  So [pkey:] and a quoted key raise
    nothing. *)
Theorem group_parameter_rule (q : string) (e : command) :
  In e (commands (run q)) ->
  cmd_name e = "GROUP"%string ->
  (In (group_key_issue (cmd_line e)) (snd (validate q))
   <-> has_parameter "key" (cmd_text e))
  /\ (In (group_value_issue (cmd_line e)) (snd (validate q))
      <-> has_parameter "value" (cmd_text e)).
Proof.
  assert (NB : Group <> Balance) by discriminate.
  assert (NS : Group <> Shape) by discriminate.
  assert (UK : forall k' d', raised_by k' d' -> is_group_key d' = true -> k' = Group).
  { intros k' d' Hk. destruct Hk; try reflexivity; discriminate. }
  assert (UV : forall k' d', raised_by k' d' -> is_group_value d' = true -> k' = Group).
  { intros k' d' Hk. destruct Hk; try reflexivity; discriminate. }
  rewrite run_commands. intros He Hn.
  assert (ND := parsed_command_lines q).
  rewrite (@in_by_message is_group_key Group q (group_key_issue (cmd_line e))
             NB NS UK eq_refl).
  rewrite (@in_by_message is_group_value Group q (group_value_issue (cmd_line e))
             NB NS UV eq_refl).
  cbn [output_of]. rewrite (proj2 check_group_syntax_spec).
  rewrite <- search_key, <- search_value, <- !is_some_search, !in_flat_map.
  split; split.
  - intros (x & Hx & Hd). unfold group_out in Hd.
    destruct (String.eqb (cmd_name x) "GROUP"); [|contradiction].
    apply in_app_iff in Hd. destruct Hd as [Hd | Hd].
    + destruct (Re.is_some (Re.re_search false "\bkey\s*:" (cmd_text x))) eqn:K;
        [|contradiction].
      destruct Hd as [Hd | []].
      assert (L : cmd_line x = cmd_line e).
      { apply (f_equal line) in Hd. exact Hd. }
      rewrite <- (@same_line _ x e ND Hx He L). exact K.
    + destruct (Re.is_some (Re.re_search false "\bvalue\s*:" (cmd_text x)));
        [|contradiction].
      destruct Hd as [Hd | []]. apply (f_equal message) in Hd. discriminate Hd.
  - intros K. exists e. split; [exact He|]. unfold group_out.
    rewrite Hn, K. left. reflexivity.
  - intros (x & Hx & Hd). unfold group_out in Hd.
    destruct (String.eqb (cmd_name x) "GROUP"); [|contradiction].
    apply in_app_iff in Hd. destruct Hd as [Hd | Hd].
    + destruct (Re.is_some (Re.re_search false "\bkey\s*:" (cmd_text x)));
        [|contradiction].
      destruct Hd as [Hd | []]. apply (f_equal message) in Hd. discriminate Hd.
    + destruct (Re.is_some (Re.re_search false "\bvalue\s*:" (cmd_text x))) eqn:K;
        [|contradiction].
      destruct Hd as [Hd | []].
      assert (L : cmd_line x = cmd_line e).
      { apply (f_equal line) in Hd. exact Hd. }
      rewrite <- (@same_line _ x e ND Hx He L). exact K.
  - intros K. exists e. split; [exact He|]. unfold group_out.
    rewrite Hn, K. apply in_or_app. right. left. reflexivity.
Qed.

Lemma group_parameter_rule_witness :
  In (group_key_issue 2) (snd (validate group_query))
  /\ In (group_value_issue 2) (snd (validate group_query)).
Proof.
  assert (He : In (2, "GROUP", "GROUP {key : host, pkey: a, value:1}")%string
                 (commands (run group_query)))
    by (vm_compute; tauto).
  destruct (group_parameter_rule group_query _ He eq_refl) as [K V].
  split.
  - apply (proj2 K). exists "GROUP {"%string, " "%string, " host, pkey: a, value:1}"%string.
    repeat split.
  - apply (proj2 V). exists "GROUP {key : host, pkey: a, "%string, ""%string, "1}"%string.
    repeat split.
Defined.

(** ** SELECT with a wildcard *)

Section Wildcard.

Lemma prefix_iff p : forall s,
  String.prefix p s = true <-> exists b, s = (p ++ b)%string.
Proof.
  induction p as [|c p IH]; intros s.
  - split; [|intros _; destruct s; reflexivity]. intros _. exists s. reflexivity.
  - destruct s as [|c' s]; cbn [String.prefix].
    + split; [discriminate|]. intros (b & E). discriminate.
    + destruct (ascii_dec c c') as [<-|N].
      * rewrite IH. split.
        -- intros (b & ->). exists b. reflexivity.
        -- intros (b & E). cbn in E. injection E as ->. exists b. reflexivity.
      * split; [discriminate|]. intros (b & E). cbn in E. injection E as E _.
        congruence.
Qed.

Lemma contains_iff sub : forall s,
  contains sub s = true <-> exists a b, s = (a ++ sub ++ b)%string.
Proof.
  induction s as [|c s IH].
  - cbn [contains]. rewrite orb_false_r, prefix_iff. split.
    + intros (b & E). exists EmptyString, b. exact E.
    + intros (a & b & E). destruct a as [|x a]; [|discriminate].
      exists b. exact E.
  - cbn [contains]. rewrite orb_true_iff, prefix_iff, IH. split.
    + intros [(b & E) | (a & b & E)].
      * exists EmptyString, b. exact E.
      * exists (String c a), b. cbn. rewrite E. reflexivity.
    + intros (a & b & E). destruct a as [|x a].
      * left. exists b. exact E.
      * right. cbn in E. injection E as _ E. exists a, b. exact E.
Qed.

End Wildcard.

(** X14.  A SELECT entry gets the "SELECT [*]" warning at its line exactly
    when its text contains the three characters [[*]] somewhere, also
    outside the field list. *)
Theorem select_star_rule (q : string) (e : command) :
  In e (commands (run q)) ->
  cmd_name e = "SELECT"%string ->
  (In (select_star_issue (cmd_line e)) (snd (validate q))
   <-> exists a b, cmd_text e = (a ++ "[*]" ++ b)%string).
Proof.
  assert (NB : Select <> Balance) by discriminate.
  assert (NS : Select <> Shape) by discriminate.
  assert (U : forall k' d', raised_by k' d' -> is_select_star d' = true -> k' = Select).
  { intros k' d' Hk. destruct Hk; try reflexivity; discriminate. }
  rewrite run_commands. intros He Hn.
  assert (ND := parsed_command_lines q).
  rewrite (@in_by_message is_select_star Select q (select_star_issue (cmd_line e))
             NB NS U eq_refl).
  cbn [output_of]. rewrite (proj2 check_select_star_spec).
  rewrite <- contains_iff, in_flat_map. split.
  - intros (x & Hx & Hd). unfold select_out in Hd.
    destruct (String.eqb (cmd_name x) "SELECT"); [|contradiction].
    destruct (contains "[*]" (cmd_text x)) eqn:K; [|contradiction].
    destruct Hd as [Hd | []].
    assert (L : cmd_line x = cmd_line e).
    { apply (f_equal line) in Hd. exact Hd. }
    rewrite <- (@same_line _ x e ND Hx He L). exact K.
  - intros K. exists e. split; [exact He|]. unfold select_out.
    rewrite Hn, K. left. reflexivity.
Qed.

Lemma select_star_rule_witness :
  In (select_star_issue 2) (snd (validate star_query)).
Proof.
  assert (He : In (2, "SELECT", "SELECT [a] -- not [*]")%string
                 (commands (run star_query)))
    by (vm_compute; tauto).
  apply (proj2 (select_star_rule star_query _ He eq_refl)).
  exists "SELECT [a] -- not "%string, ""%string. reflexivity.
Defined.

(** ** Blank and comment lines *)

Section SkippedLines.

Lemma unnumbered_entries l : forall start,
  map unnumbered (flat_map parse_entry (combine (seq start (length l)) l))
  = flat_map parse_text l.
Proof.
  induction l as [|raw l IH]; intros start; cbn [length seq combine flat_map].
  - reflexivity.
  - rewrite map_app, IH. f_equal.
    unfold parse_text, parse_entry. cbn [fst snd].
    destruct (parse_skipped (strip raw)); [reflexivity|].
    destruct (identify (strip raw)); reflexivity.
Qed.

Lemma skipped_both text : syntax_skipped text = true -> parse_skipped text = true.
Proof.
  unfold syntax_skipped, parse_skipped. intros H.
  rewrite !orb_true_iff in *. tauto.
Qed.

Lemma names_unnumbered (cmds : list command) :
  map cmd_name cmds = map fst (map unnumbered cmds).
Proof. rewrite map_map. reflexivity. Qed.

Lemma update_same (cmds : list command) : forall cmds' b,
  map unnumbered cmds = map unnumbered cmds' ->
  (scan_out update_out update_next b cmds = []
   <-> scan_out update_out update_next b cmds' = []).
Proof.
  induction cmds as [|c cmds IH]; intros [|c' cmds'] b E; try discriminate.
  - reflexivity.
  - cbn [map] in E. unfold unnumbered at 1 3 in E.
    injection E as N T E. cbn [scan_out].
    unfold update_out, update_next. rewrite <- N.
    specialize (IH cmds' (String.eqb (cmd_name c) "GROUP" || b)%bool E).
    destruct (negb (String.eqb (cmd_name c) "GROUP")
              && String.eqb (cmd_name c) "UPDATE" && negb b).
    + split; discriminate.
    + exact IH.
Qed.

Lemma group_same (cmds : list command) : forall cmds',
  map unnumbered cmds = map unnumbered cmds' ->
  (flat_map group_out cmds = [] <-> flat_map group_out cmds' = []).
Proof.
  induction cmds as [|c cmds IH]; intros [|c' cmds'] E; try discriminate.
  - reflexivity.
  - cbn [map] in E. unfold unnumbered at 1 3 in E.
    injection E as N T E. cbn [flat_map].
    specialize (IH cmds' E). unfold group_out. rewrite <- N, <- T.
    destruct (String.eqb (cmd_name c) "GROUP"); [|exact IH].
    destruct (Re.is_some (Re.re_search false "\bkey\s*:" (cmd_text c)));
      destruct (Re.is_some (Re.re_search false "\bvalue\s*:" (cmd_text c)));
      cbn [app]; try exact IH; split; discriminate.
Qed.

Lemma syntax_lines q :
  Forall noncritical (emitted _check_syntax (parsed q)) <->
  forall raw, In raw (split nl (strip q)) ->
              syntax_skipped (strip raw) = false ->
              Dyck (delimiters (visible false false (strip raw))).
Proof.
  rewrite syntax_noncritical. split.
  - intros H raw Hin. apply In_nth_error in Hin. destruct Hin as (n & Hn).
    apply (H n raw Hn).
  - intros H n raw Hn. apply (H raw). apply (nth_error_In _ _ Hn).
Qed.

(** Validity is decided by the lines and by the names and texts of the
    entries, not by their line numbers. *)
Lemma valid_same q q' :
  (forall raw, syntax_skipped (strip raw) = false ->
               (In raw (split nl (strip q)) <-> In raw (split nl (strip q')))) ->
  map unnumbered (commands (parsed q)) = map unnumbered (commands (parsed q')) ->
  fst (validate q) = fst (validate q').
Proof.
  intros L U.
  assert (N : map cmd_name (commands (parsed q))
              = map cmd_name (commands (parsed q'))).
  { rewrite !names_unnumbered, U. reflexivity. }
  assert (V : fst (validate q) = true <-> fst (validate q') = true).
  { rewrite !valid_outputs, !syntax_lines.
    rewrite !(proj2 check_required_commands_spec).
    rewrite !(proj2 check_update_requires_group_spec).
    rewrite !(proj2 check_sub_end_pairing_spec).
    rewrite !(proj2 check_group_syntax_spec). cbv zeta.
    rewrite (@update_same _ _ false U), (@group_same _ _ U).
    unfold has_source. rewrite !count_named_occ, N.
    split; intros (H1 & H2); (split; [|exact H2]);
      intros raw Hin Hs; apply (H1 raw); try exact Hs;
      apply (L raw Hs); exact Hin. }
  destruct (fst (validate q)), (fst (validate q')); try reflexivity.
  - symmetry. apply V. reflexivity.
  - apply V. reflexivity.
Qed.

End SkippedLines.

(** X15.  Blank lines and comment lines that start with [#] or [//] never
    decide validity: a query with such a line among its lines is valid
    exactly when the query without that line is. *)
Theorem skipped_line_keeps_validity (q q' : string) (l1 : list string)
    (c : string) (l2 : list string) :
  split nl (strip q') = l1 ++ c :: l2 ->
  split nl (strip q) = l1 ++ l2 ->
  syntax_skipped (strip c) = true ->
  fst (validate q') = fst (validate q).
Proof.
  intros E' E Hc. apply valid_same.
  - intros raw Hs. rewrite E, E', !in_app_iff. cbn [In]. split; [|tauto].
    intros [H | [<- | H]]; try tauto. rewrite Hc in Hs. discriminate.
  - rewrite !parsed_commands. unfold enumerate.
    rewrite !unnumbered_entries, E, E', !flat_map_app. cbn [flat_map].
    unfold parse_text at 2, parse_entry. cbn [fst snd].
    rewrite (skipped_both _ Hc). reflexivity.
Qed.

Lemma skipped_line_keeps_validity_witness :
  fst (validate commented_query) = fst (validate uncommented_query).
Proof.
  apply (@skipped_line_keeps_validity uncommented_query commented_query
           ["TAGLOAD"%string] "# SELECT [a"%string ["SELECT [a]"%string]);
    vm_compute; reflexivity.
Defined.

(** ** Indentation *)

Section Indentation.

Lemma flat_map_stripped (V : Type) (f : nat * string -> list V) l :
  (forall i raw, f (i, strip raw) = f (i, raw)) ->
  forall start,
    flat_map f (combine (seq start (length (map strip l))) (map strip l))
    = flat_map f (combine (seq start (length l)) l).
Proof.
  intros H. induction l as [|raw l IH]; intros start;
    cbn [map length seq combine flat_map]; [reflexivity|].
  rewrite H, IH. reflexivity.
Qed.

Lemma syntax_line_out_stripped i raw :
  syntax_line_out (i, strip raw) = syntax_line_out (i, raw).
Proof. unfold syntax_line_out. cbn [fst snd]. rewrite strip_strip. reflexivity. Qed.

Lemma parse_entry_stripped i raw : parse_entry (i, strip raw) = parse_entry (i, raw).
Proof. unfold parse_entry. cbn [fst snd]. rewrite strip_strip. reflexivity. Qed.

Lemma outputs_same self self' :
  emitted _check_syntax self = emitted _check_syntax self' ->
  commands self = commands self' ->
  run_outputs self = run_outputs self'.
Proof.
  intros S C. unfold run_outputs. rewrite S.
  rewrite !(proj2 check_required_commands_spec),
          !(proj2 check_command_order_spec),
          !(proj2 check_update_requires_group_spec),
          !(proj2 check_sub_end_pairing_spec),
          !(proj2 check_group_syntax_spec),
          !(proj2 check_select_star_spec),
          !placement_out, !limit_out, C.
  reflexivity.
Qed.

Lemma validate_outputs q :
  validate q
  = (negb (existsb (fun issue => Severity_eqb (severity issue) CRITICAL)
             (concat (run_outputs (parsed q)))),
     concat (run_outputs (parsed q))).
Proof.
  unfold validate. cbv zeta. rewrite run_eq. cbn [issues with_issues].
  reflexivity.
Qed.

End Indentation.

(** X16.  Only the stripped lines count: two queries whose lines are equal
    after stripping each line get the same result from [validate], issue by
    issue, so indentation and trailing white space are irrelevant. *)
Theorem indentation_is_irrelevant (q q' : string) :
  map strip (split nl (strip q)) = map strip (split nl (strip q')) ->
  validate q = validate q'.
Proof.
  intros E. rewrite !validate_outputs.
  assert (O : run_outputs (parsed q) = run_outputs (parsed q')).
  { apply outputs_same.
    - rewrite !(proj2 check_syntax_spec), !parsed_lines. unfold enumerate.
      rewrite <- (flat_map_stripped syntax_line_out (split nl (strip q))
                    syntax_line_out_stripped 1).
      rewrite <- (flat_map_stripped syntax_line_out (split nl (strip q'))
                    syntax_line_out_stripped 1).
      rewrite E. reflexivity.
    - rewrite !parsed_commands. unfold enumerate.
      rewrite <- (flat_map_stripped parse_entry (split nl (strip q))
                    parse_entry_stripped 1).
      rewrite <- (flat_map_stripped parse_entry (split nl (strip q'))
                    parse_entry_stripped 1).
      rewrite E. reflexivity. }
  rewrite O. reflexivity.
Qed.

Lemma indentation_is_irrelevant_witness :
  validate indented_query = validate flush_query.
Proof. apply indentation_is_irrelevant. vm_compute. reflexivity. Defined.

(** ** The generated test query *)

Section Generator.

Lemma append_assoc (a b c : string) : ((a ++ b) ++ c = a ++ (b ++ c))%string.
Proof. induction a as [|x a IH]; cbn; [reflexivity | rewrite IH; reflexivity]. Qed.

Lemma join_cons sep x (l : list string) :
  l <> [] -> join sep (x :: l) = (x ++ sep ++ join sep l)%string.
Proof. destruct l; [congruence | reflexivity]. Qed.

Lemma join_app sep (l1 l2 : list string) :
  l1 <> [] -> l2 <> [] ->
  join sep (l1 ++ l2) = (join sep l1 ++ sep ++ join sep l2)%string.
Proof.
  induction l1 as [|x l1 IH]; [congruence|]. intros _ N2.
  destruct l1 as [|y l1].
  - cbn [app]. rewrite join_cons by exact N2. reflexivity.
  - change ((x :: y :: l1) ++ l2) with (x :: ((y :: l1) ++ l2)).
    rewrite join_cons by discriminate.
    rewrite IH by (discriminate || exact N2).
    rewrite (@join_cons sep x (y :: l1)) by discriminate.
    rewrite !append_assoc. reflexivity.
Qed.

Lemma split_app sep a b :
  split sep (a ++ String sep b) = split sep a ++ split sep b.
Proof.
  induction a as [|c a IH]; cbn [append split].
  - rewrite Ascii.eqb_refl. reflexivity.
  - destruct (Ascii.eqb c sep).
    + rewrite IH. reflexivity.
    + rewrite IH. pose proof (split_nonempty sep a) as L.
      destruct (split sep a) as [|cur rest]; [cbn in L; lia | reflexivity].
Qed.

Lemma rstrip_empty s : rstrip s = "" <-> all_space s = true.
Proof.
  induction s as [|c s IH]; cbn [rstrip all_space].
  - tauto.
  - destruct (rstrip s) as [|c' r].
    + rewrite (proj1 IH eq_refl), andb_true_r.
      destruct (isspace c); split; intros H; try reflexivity; discriminate.
    + destruct (all_space s).
      * discriminate (proj2 IH eq_refl).
      * rewrite andb_false_r. split; discriminate.
Qed.

Lemma all_space_app a b :
  all_space (a ++ b) = all_space a && all_space b.
Proof.
  induction a as [|c a IH]; cbn [append all_space]; [reflexivity|].
  rewrite IH, andb_assoc. reflexivity.
Qed.

Lemma rstrip_app a b :
  all_space b = false -> rstrip (a ++ b) = (a ++ rstrip b)%string.
Proof.
  intros B. induction a as [|c a IH]; cbn [append rstrip]; [reflexivity|].
  rewrite IH. destruct (a ++ rstrip b)%string as [|c' r] eqn:E; [|reflexivity].
  exfalso. destruct a; [|discriminate]. cbn in E.
  apply rstrip_empty in E. congruence.
Qed.

Lemma rstrip_nl b :
  all_space b = false -> rstrip (String nl b) = String nl (rstrip b).
Proof. intros B. exact (@rstrip_app (str1 nl) b B). Qed.

Lemma join_not_space (l rest : list string) :
  all_space (join (str1 nl) (l ++ "END"%string :: rest)) = false.
Proof.
  induction l as [|x l IH].
  - cbn [app]. destruct rest; reflexivity.
  - change ((x :: l) ++ "END"%string :: rest)
      with (x :: (l ++ "END"%string :: rest)).
    rewrite join_cons by (destruct l; discriminate).
    rewrite !all_space_app, IH, !andb_false_r. reflexivity.
Qed.

Lemma in_enumerated (A : Type) (x : A) l start :
  In x l -> exists i, In (i, x) (enumerate l start).
Proof.
  intros H. destruct (In_nth_error l x H) as (k & K).
  exists (start + k). apply in_enumerate_iff. split; [lia|].
  replace (start + k - start) with k by lia. exact K.
Qed.

Lemma loader_present q :
  has_source (commands (parsed q)) = true ->
  filter is_missing_loader (snd (validate q)) = [].
Proof.
  intros S.
  assert (E : filter is_missing_loader (snd (validate q))
              = filter is_missing_loader (output_of Required (parsed q))).
  { apply filter_by_origin; try discriminate.
    intros k d Hd. destruct Hd; try reflexivity; discriminate. }
  rewrite E. cbn [output_of]. rewrite (proj2 check_required_commands_spec).
  rewrite S. reflexivity.
Qed.

Lemma sub_line_loader q :
  In "SUB {id: test_data}"%string (split nl (strip q)) ->
  filter is_missing_loader (snd (validate q)) = [].
Proof.
  intros H. apply loader_present. apply has_source_iff.
  destruct (@in_enumerated _ _ _ 1 H) as (i & Hi).
  exists (i, "SUB", "SUB {id: test_data}")%string. split.
  - rewrite parsed_commands. apply in_flat_map.
    exists (i, "SUB {id: test_data}"%string). split; [exact Hi|].
    left. vm_compute. reflexivity.
  - vm_compute. tauto.
Qed.

End Generator.
Section GeneratedLines.

Lemma scaffold_lines (header rows query_lines : list string) :
  header = [] \/ (exists d, header = [("# Test: " ++ d)%string]) ->
  exists pre post,
    split nl (strip (join (str1 nl)
      (header
       ++ ["# This query uses ADDROW to inject test data"; "";
           "SUB {id: test_data}"]
       ++ rows ++ ["END"; ""] ++ query_lines)))
    = pre ++ ["# This query uses ADDROW to inject test data"; "";
              "SUB {id: test_data}"] ++ post.
Proof.
  intros H.
  set (top := ["# This query uses ADDROW to inject test data"; "";
               "SUB {id: test_data}"]).
  set (tail := rows ++ "END"%string :: ""%string :: query_lines).
  change (header ++ top ++ rows ++ ["END"; ""] ++ query_lines)
    with (header ++ top ++ tail).
  rewrite app_assoc.
  assert (T : all_space (join (str1 nl) tail) = false)
    by apply join_not_space.
  rewrite join_app;
    [| destruct header; discriminate | destruct rows; discriminate].
  set (B := join (str1 nl) tail) in *.
  change (str1 nl ++ B)%string with (String nl B).
  assert (A : exists A1 pre,
             join (str1 nl) (header ++ top) = String "#" A1
             /\ split nl (String "#" A1) = pre ++ top).
  { destruct H as [-> | (d & ->)].
    - eexists. exists []. split; reflexivity.
    - eexists. exists (split nl ("# Test: " ++ d)). split.
      + reflexivity.
      + change (split nl (("# Test: " ++ d) ++ String nl (join (str1 nl) top))
                = split nl ("# Test: " ++ d) ++ top).
        rewrite split_app. reflexivity. }
  destruct A as (A1 & pre & -> & S).
  unfold strip.
  change (lstrip (String "#" A1 ++ String nl B))
    with (String "#" A1 ++ String nl B)%string.
  rewrite rstrip_app by exact T.
  rewrite rstrip_nl by exact T.
  rewrite split_app, S.
  exists pre, (split nl (rstrip B)). rewrite <- app_assoc. reflexivity.
Qed.

End GeneratedLines.

(** X17. Generator and validator compose: whatever the original query,
    the sample rows and the description are, the text that
    [generate_test_query] returns holds the line [SUB {id: test_data}],
    which the validator reads as a data loader; so validating a generated
    test query never raises the missing-data-loader issue. *)
Theorem generated_query_has_loader (Dict : Type) (json_dumps : Dict -> string)
    (original_query : string) (sample_data : list Dict)
    (test_description : option string) :
  filter is_missing_loader
    (snd (validate
            (generate_test_query json_dumps original_query sample_data
               test_description)))
  = [].
Proof.
  apply sub_line_loader. unfold generate_test_query. cbv zeta.
  destruct (loader_loop (enumerate (split nl (strip original_query)) 0) false)
    as [[insert_pos has_category] has_loader].
  match goal with
  | |- In _ (split nl (strip (join _ (?h ++ _ ++ ?r ++ _ ++ ?l)))) =>
      destruct (@scaffold_lines h r l) as (pre & post & E)
  end.
  - destruct test_description as [d|]; [|left; reflexivity].
    destruct (String.eqb d ""); [left; reflexivity|].
    right. exists d. reflexivity.
  - rewrite E. apply in_or_app. right. cbn. tauto.
Qed.
Section AppendPosition.

Ltac every_char c :=
  destruct c as [b0 b1 b2 b3 b4 b5 b6 b7];
  destruct b0, b1, b2, b3, b4, b5, b6, b7; reflexivity.

(** [upper] never turns a character into a keyword letter that case
    folding would not: its two-letter and out-of-range capitals play no
    part in the prefix tests. *)
Lemma upper_char_step k c rest p :
  In k keyword_chars ->
  starts_with (upper_char c ++ rest) (N_of_ascii k :: p)
  = Ascii.eqb (lower c) (lower k) && starts_with rest p.
Proof.
  intros H. cbn in H.
  repeat (destruct H as [<- | H]; [every_char c|]). contradiction.
Qed.

Lemma upper_prefix kw :
  forallb (fun k => existsb (Ascii.eqb k) keyword_chars)
    (list_ascii_of_string kw) = true ->
  forall s, starts_with (upper s) (code_points kw) = starts_any_case kw s.
Proof.
  induction kw as [|k kw IH]; intros F s.
  - destruct s; reflexivity.
  - cbn [list_ascii_of_string forallb] in F.
    apply andb_true_iff in F. destruct F as [K F].
    apply existsb_exists in K. destruct K as (k' & K & E).
    apply Ascii.eqb_eq in E. subst k'.
    destruct s as [|c s]; [reflexivity|].
    cbn [upper code_points starts_any_case].
    rewrite upper_char_step by exact K. rewrite IH by exact F. reflexivity.
Qed.

Lemma category_prefix l :
  starts_with (upper (strip l)) (code_points "CATEGORY") = category_line l.
Proof. apply upper_prefix. reflexivity. Qed.

Lemma loader_prefix l :
  starts_with (upper (strip l)) (code_points "TAGLOAD")
  || starts_with (upper (strip l)) (code_points "FLEX-LOAD")
  = loader_line l.
Proof.
  unfold loader_line. rewrite !upper_prefix by reflexivity. reflexivity.
Qed.

Lemma category_not_loader l : category_line l = true -> loader_line l = false.
Proof.
  unfold category_line, loader_line. destruct (strip l) as [|c r]; [discriminate|].
  cbn [starts_any_case]. change (lower "C") with "c"%char.
  change (lower "T") with "t"%char. change (lower "F") with "f"%char.
  destruct (Ascii.eqb_spec (lower c) "c") as [-> |]; [reflexivity | discriminate].
Qed.

Lemma enumerate_cons (A : Type) (x : A) l start :
  enumerate (x :: l) start = (start, x) :: enumerate l (S start).
Proof. reflexivity. Qed.

Lemma loader_loop_cons i x rest hc :
  loader_loop ((i, x) :: rest) hc
  = if category_line x then loader_loop rest true
    else if loader_line x then (i + 1, hc, true)
    else loader_loop rest hc.
Proof.
  rewrite <- category_prefix, <- loader_prefix. reflexivity.
Qed.

Lemma category_loop_cons i x rest p0 :
  category_loop ((i, x) :: rest) p0
  = if category_line x then i + 1 else category_loop rest p0.
Proof. rewrite <- category_prefix. reflexivity. Qed.

Lemma loader_loop_spec ls : forall start hc,
  (exists before l post,
      ls = before ++ l :: post /\ loader_line l = true
      /\ (forall x, In x before -> loader_line x = false)
      /\ exists c, loader_loop (enumerate ls start) hc
                   = (start + length before + 1, c, true))
  \/ ((forall x, In x ls -> loader_line x = false)
      /\ loader_loop (enumerate ls start) hc
         = (0, hc || existsb category_line ls, false)).
Proof.
  induction ls as [|x ls IH]; intros start hc.
  - right. split; [intros x []|]. cbn. rewrite orb_false_r. reflexivity.
  - rewrite enumerate_cons, loader_loop_cons.
    destruct (category_line x) eqn:C.
    + pose proof (category_not_loader x C) as L.
      destruct (IH (S start) true)
        as [(before & l & post & -> & Hl & Hb & c & E) | (Hn & E)].
      * left. exists (x :: before), l, post.
        split; [reflexivity|]. split; [exact Hl|].
        split; [intros y [<- | Hy]; [exact L | exact (Hb y Hy)]|].
        exists c. rewrite E. cbn [length]. f_equal. f_equal. lia.
      * right. split; [intros y [<- | Hy]; [exact L | exact (Hn y Hy)]|].
        rewrite E. cbn [existsb]. rewrite C. cbn [orb].
        rewrite orb_true_r. reflexivity.
    + destruct (loader_line x) eqn:L.
      * left. exists [], x, ls. split; [reflexivity|]. split; [exact L|].
        split; [intros y []|]. exists hc. cbn [length]. f_equal. f_equal. lia.
      * destruct (IH (S start) hc)
          as [(before & l & post & -> & Hl & Hb & c & E) | (Hn & E)].
        -- left. exists (x :: before), l, post.
           split; [reflexivity|]. split; [exact Hl|].
           split; [intros y [<- | Hy]; [exact L | exact (Hb y Hy)]|].
           exists c. rewrite E. cbn [length]. f_equal. f_equal. lia.
        -- right. split; [intros y [<- | Hy]; [exact L | exact (Hn y Hy)]|].
           rewrite E. cbn [existsb]. rewrite C. reflexivity.
Qed.

Lemma category_loop_spec ls : forall start p0,
  (exists before l post,
      ls = before ++ l :: post /\ category_line l = true
      /\ (forall x, In x before -> category_line x = false)
      /\ category_loop (enumerate ls start) p0 = start + length before + 1)
  \/ ((forall x, In x ls -> category_line x = false)
      /\ category_loop (enumerate ls start) p0 = p0).
Proof.
  induction ls as [|x ls IH]; intros start p0.
  - right. split; [intros x []|]. reflexivity.
  - rewrite enumerate_cons, category_loop_cons.
    destruct (category_line x) eqn:C.
    + left. exists [], x, ls. split; [reflexivity|]. split; [exact C|].
      split; [intros y []|]. cbn [length]. lia.
    + destruct (IH (S start) p0)
        as [(before & l & post & -> & Hl & Hb & E) | (Hn & E)].
      * left. exists (x :: before), l, post.
        split; [reflexivity|]. split; [exact Hl|].
        split; [intros y [<- | Hy]; [exact C | exact (Hb y Hy)]|].
        rewrite E. cbn [length]. lia.
      * right. split; [intros y [<- | Hy]; [exact C | exact (Hn y Hy)]|].
        exact E.
Qed.

Lemma insert_after (A : Type) (before : list A) l post x :
  list_insert (before ++ l :: post) (length before + 1) x
  = (before ++ [l]) ++ x :: post.
Proof.
  unfold list_insert. induction before as [|a before IH].
  - reflexivity.
  - cbn [length Nat.add app firstn skipn]. rewrite IH. reflexivity.
Qed.

End AppendPosition.

(** X18. The generated text is a scaffold that depends only on the sample
    rows and the description, followed by the lines of the stripped
    original query, all kept and in their order, with the one line
    [APPEND {query: test_data}] added: directly after the first line that
    starts, once stripped and in any letter case, with TAGLOAD or
    FLEX-LOAD; when no line does, directly after the first line that
    starts with CATEGORY; and when no line does either, before the first
    line. *)
Theorem append_position (Dict : Type) (json_dumps : Dict -> string)
    (sample_data : list Dict) (test_description : option string) :
  exists scaffold, forall original_query, exists pre post,
    split nl (strip original_query) = pre ++ post
    /\ generate_test_query json_dumps original_query sample_data
         test_description
       = join (str1 nl)
           (scaffold ++ pre ++ "APPEND {query: test_data}"%string :: post)
    /\ (ends_at_first loader_line pre
        \/ ((forall x, In x (pre ++ post) -> loader_line x = false)
            /\ ends_at_first category_line pre)
        \/ ((forall x, In x (pre ++ post) ->
                       loader_line x = false /\ category_line x = false)
            /\ pre = [])).
Proof.
  exists (match test_description with
          | Some description =>
              if String.eqb description "" then []
              else [("# Test: " ++ description)%string]
          | None => []
          end
          ++ ["# This query uses ADDROW to inject test data"; "";
              "SUB {id: test_data}"]%string
          ++ map (fun row =>
                    ("ADDROW " ++ _dict_to_json_inline json_dumps row)%string)
               sample_data
          ++ ["END"; ""]%string).
  intros q. unfold generate_test_query. cbv zeta.
  set (ls := split nl (strip q)).
  assert (R : forall (h t r e ql : list string),
             h ++ t ++ r ++ e ++ ql = (h ++ t ++ r ++ e) ++ ql).
  { intros. rewrite <- !app_assoc. reflexivity. }
  destruct (loader_loop_spec ls 0 false)
    as [(before & l & post & E & Hl & Hb & c & ->) | (Hn & ->)].
  - exists (before ++ [l]), post. cbn [negb andb Nat.add].
    rewrite E, insert_after, <- app_assoc. split; [reflexivity|].
    split; [rewrite R, <- app_assoc; reflexivity|].
    left. exists before, l. auto.
  - cbn [negb andb orb].
    destruct (category_loop_spec ls 0 0)
      as [(before & l & post & E & Hl & Hb & P) | (Hc & P)].
    + assert (X : existsb category_line ls = true).
      { apply existsb_exists. exists l. split; [|exact Hl].
        rewrite E. apply in_or_app. right. left. reflexivity. }
      rewrite X, P. exists (before ++ [l]), post. cbn [Nat.add].
      rewrite E in *. rewrite insert_after, <- app_assoc.
      split; [reflexivity|]. split; [rewrite R, <- app_assoc; reflexivity|].
      right. left. split.
      * intros x Hx. apply Hn. exact Hx.
      * exists before, l. auto.
    + assert (Z : (if existsb category_line ls
                   then category_loop (enumerate ls 0) 0 else 0) = 0).
      { rewrite P. destruct (existsb category_line ls); reflexivity. }
      rewrite Z. exists [], ls. split; [reflexivity|].
      split; [rewrite R; reflexivity|].
      right. right. split; [|reflexivity].
      intros x Hx. split; [exact (Hn x Hx) | exact (Hc x Hx)].
Qed.
Section ProductType.

Lemma split_head sep s :
  exists h t,
    split sep s = h :: t /\ has_char sep h = false
    /\ (s = h \/ exists r, s = (h ++ String sep r)%string).
Proof.
  induction s as [|c s IH]; cbn [split].
  - exists ""%string, []. split; [reflexivity|]. split; [reflexivity|].
    left. reflexivity.
  - destruct (Ascii.eqb_spec c sep) as [-> | N].
    + exists ""%string, (split sep s). split; [reflexivity|].
      split; [reflexivity|]. right. exists s. reflexivity.
    + destruct IH as (h & t & -> & H & D).
      exists (String c h), t. split; [reflexivity|]. split.
      * cbn [has_char]. rewrite H, orb_false_r. apply Ascii.eqb_neq. exact N.
      * destruct D as [-> | (r & ->)]; [left; reflexivity|].
        right. exists r. reflexivity.
Qed.

Lemma replace_char_absent old new s :
  old <> new -> has_char old (replace_char old new s) = false.
Proof.
  intros N. induction s as [|c s IH]; cbn [replace_char has_char].
  - reflexivity.
  - rewrite IH, orb_false_r. destruct (Ascii.eqb_spec c old) as [-> | M].
    + apply Ascii.eqb_neq. congruence.
    + apply Ascii.eqb_neq. exact M.
Qed.

Lemma replace_char_same old new s :
  has_char old s = false -> replace_char old new s = s.
Proof.
  induction s as [|c s IH]; cbn [replace_char has_char]; [reflexivity|].
  intros H. apply orb_false_iff in H. destruct H as [C H].
  rewrite C, IH by exact H. reflexivity.
Qed.

End ProductType.

(** X19. The product type of a category name is the part of the name
    before its first underscore, and the whole name when it has none: it
    holds no underscore, and the name is the product type alone or the
    product type, an underscore and the rest.  The fallback [unknown] is
    therefore never taken: the empty name has the empty product type. *)
Theorem product_type_prefix (category_name : string) :
  has_char "_" (_extract_product_type category_name) = false
  /\ (category_name = _extract_product_type category_name
      \/ exists rest,
           category_name
           = (_extract_product_type category_name ++ String "_" rest)%string)
  /\ _extract_product_type "" = ""%string.
Proof.
  unfold _extract_product_type.
  destruct (split_head "_" category_name) as (h & t & -> & H & D).
  split; [exact H|]. split; [exact D | reflexivity].
Qed.

(** X20. The inline form of a sample row never holds a double quote:
    every double quote of the JSON text has become a single quote; a JSON
    text without double quotes is returned as it is. *)
Theorem inline_json_quotes (Dict : Type) (json_dumps : Dict -> string)
    (data : Dict) :
  has_char dq (_dict_to_json_inline json_dumps data) = false
  /\ String.length (_dict_to_json_inline json_dumps data)
     = String.length (json_dumps data)
  /\ (has_char dq (json_dumps data) = false ->
      _dict_to_json_inline json_dumps data = json_dumps data).
Proof.
  unfold _dict_to_json_inline. split; [|split].
  - apply replace_char_absent. discriminate.
  - induction (json_dumps data) as [|c s IH]; cbn [replace_char String.length];
      [reflexivity | rewrite IH; reflexivity].
  - apply replace_char_same.
Qed.
